(** * DLP filter pipeline (configs/open-webui/dlp-pipeline.py)

    A shallow embedding of the data-loss-prevention filter: the detector
    registry, the scanner ([_scan_text]), the redactor ([_redact_text]),
    the file scanner ([_scan_files]) and the inbound hook ([inlet]),
    together with the part of CPython's [re] engine the detectors rely on.

    Python [str] values are sequences of Unicode code points; they are
    modelled as [list N].  Exceptions are explicit ([outcome]); what the
    filter calls but does not define (the Unicode database, [json],
    [re.compile], the file system, the document decoders, the iteration
    order of sets) is a parameter ([runtime]).  Logging has no effect on
    what the hooks return and is left out. *)

From Stdlib Require Import String Ascii.
From Stdlib Require Import List NArith ZArith Bool Lia Arith.
Import ListNotations.

Set Implicit Arguments.

(** ** Text *)

Definition text := list N.

Fixpoint txt (s : string) : text :=
  match s with
  | EmptyString => []
  | String a s' => N_of_ascii a :: txt s'
  end.

Fixpoint text_eqb (a b : text) : bool :=
  match a, b with
  | [], [] => true
  | x :: a', y :: b' => (x =? y)%N && text_eqb a' b'
  | _, _ => false
  end.

Fixpoint starts_with (p s : text) : bool :=
  match p, s with
  | [], _ => true
  | x :: p', y :: s' => (x =? y)%N && starts_with p' s'
  | _ :: _, [] => false
  end.


Fixpoint join (sep : text) (parts : list text) : text :=
  match parts with
  | [] => []
  | [p] => p
  | p :: rest => p ++ sep ++ join sep rest
  end.

Definition last_char (prev : option N) (s : text) : option N :=
  fold_left (fun _ c => Some c) s prev.

(** ** Character tables

    CPython classifies code points with the Unicode database.  The
    tables below are exact on the ASCII range and on the two dashes the
    SSN detectors name (U+2013, U+2014); every other code point is
    classified by [X], the rest of the database, over which all
    statements are universally quantified. *)

Record unicode_ext := {
    x_isalpha   : N -> bool;
    x_isdecimal : N -> bool;        (* what \d matches *)
    x_isnumeric : N -> bool;        (* other digit / numeric code points *)
    x_isspace   : N -> bool;        (* what \s and str.strip use *)
    x_ci        : N -> N -> bool;   (* literal [p] matches [x] ignoring case *)
    x_range_ci  : N -> N -> N -> bool;  (* range [lo-hi] matches [x] ignoring case *)
    x_upper     : text -> text;     (* str.upper on non-ASCII text *)
    x_lower     : text -> text      (* str.lower on non-ASCII text *)
  }.

Definition EN_DASH : N := 8211.
Definition EM_DASH : N := 8212.

Definition is_ascii (c : N) : bool := (c <? 128)%N.
Definition in_base (c : N) : bool :=
  is_ascii c || (c =? EN_DASH)%N || (c =? EM_DASH)%N.

Definition between (lo hi c : N) : bool := (lo <=? c)%N && (c <=? hi)%N.

Definition ascii_isdigit (c : N) : bool := between 48 57 c.
Definition ascii_isupper (c : N) : bool := between 65 90 c.
Definition ascii_islower (c : N) : bool := between 97 122 c.
Definition ascii_isalpha (c : N) : bool := ascii_isupper c || ascii_islower c.
(* \t \n \v \f \r, the four separators 0x1c-0x1f, and the blank *)
Definition ascii_isspace (c : N) : bool :=
  between 9 13 c || between 28 31 c || (c =? 32)%N.

Definition ascii_lower (c : N) : N := if ascii_isupper c then (c + 32)%N else c.
Definition ascii_upper (c : N) : N := if ascii_islower c then (c - 32)%N else c.

Section Chars.
Variable X : unicode_ext.

Definition is_digit (c : N) : bool :=
  if in_base c then ascii_isdigit c else x_isdecimal X c.
Definition is_space (c : N) : bool :=
  if in_base c then ascii_isspace c else x_isspace X c.
Definition is_alpha (c : N) : bool :=
  if in_base c then ascii_isalpha c else x_isalpha X c.
(* Py_UNICODE_ISALNUM: alpha, decimal, digit or numeric *)
Definition is_alnum (c : N) : bool :=
  is_alpha c || is_digit c || (if in_base c then false else x_isnumeric X c).
(* \w of a str pattern *)
Definition is_word (c : N) : bool := is_alnum c || (c =? 95)%N.

(* a pattern literal against a text character under re.IGNORECASE *)
Definition ci_eq (p x : N) : bool :=
  if in_base p && in_base x
  then (ascii_lower p =? ascii_lower x)%N
  else x_ci X p x.

(* a pattern range lo-hi against a text character under re.IGNORECASE *)
Definition range_ci (lo hi x : N) : bool :=
  if is_ascii hi && in_base x
  then between lo hi (ascii_lower x) || between lo hi (ascii_upper x)
  else x_range_ci X lo hi x.

Definition str_upper (s : text) : text :=
  if forallb is_ascii s then map ascii_upper s else x_upper X s.
Definition str_lower (s : text) : text :=
  if forallb is_ascii s then map ascii_lower s else x_lower X s.

(* str.strip() is empty *)
Definition is_blank (s : text) : bool := forallb is_space s.
End Chars.

(** ** Regular expressions

    The fragment of [re] syntax the built-in detectors are written in.
    All matching is done under [re.IGNORECASE]. *)

Inductive citem : Type :=
  | IChar (c : N)
  | IRange (lo hi : N)
  | IDigit | ISpace | IWord
  | INotDigit | INotSpace | INotWord.

Inductive re_pattern : Type :=
  | Eps
  | Lit (c : N)
  | Any                                   (* .  : anything but a newline *)
  | Cls (neg : bool) (items : list citem) (* [...] and [^...], \d, \s, \w *)
  | Bound                                 (* \b *)
  | NotBound                              (* \B *)
  | Bol                                   (* ^ *)
  | Eol                                   (* $ *)
  | Seq (r1 r2 : re_pattern)
  | Alt (r1 r2 : re_pattern)
  | Rep (greedy : bool) (lo : nat) (hi : option nat) (r : re_pattern).

Definition hi_pred (hi : option nat) : option nat :=
  match hi with Some h => Some (pred h) | None => None end.

Definition hi_is_zero (hi : option nat) : bool :=
  match hi with Some 0 => true | _ => false end.

Definition rep_fuel (lo : nat) (hi : option nat) (s : text) : nat :=
  S (lo + match hi with Some h => h - lo | None => length s end).

Section Engine.
Variable X : unicode_ext.

Definition citem_mem (i : citem) (x : N) : bool :=
  match i with
  | IChar c => ci_eq X c x
  | IRange lo hi => range_ci X lo hi x
  | IDigit => is_digit X x
  | ISpace => is_space X x
  | IWord => is_word X x
  | INotDigit => negb (is_digit X x)
  | INotSpace => negb (is_space X x)
  | INotWord => negb (is_word X x)
  end.

Definition cls_mem (items : list citem) (x : N) : bool :=
  existsb (fun i => citem_mem i x) items.

Definition word_before (prev : option N) : bool :=
  match prev with Some c => is_word X c | None => false end.
Definition word_after (s : text) : bool :=
  match s with c :: _ => is_word X c | [] => false end.
Definition at_boundary (prev : option N) (s : text) : bool :=
  xorb (word_before prev) (word_after s).

Section Run.
Variable A : Type.

Definition cont : Type := option N -> text -> option A.

(** The loop of a repeat, given the matcher of its body: [lo] iterations
    are still owed, at most [hi] are allowed.  An optional iteration
    that consumes nothing is followed directly by the tail (the engine's
    zero-width protection). *)
Fixpoint rep_loop (body : option N -> text -> cont -> option A)
         (greedy : bool) (k : cont)
         (fuel lo : nat) (hi : option nat) (prev : option N) (s : text)
         {struct fuel} : option A :=
  match fuel with
  | 0 => None
  | S fuel' =>
      match lo with
      | S lo' =>
          body prev s (fun p s' => rep_loop body greedy k fuel' lo' (hi_pred hi) p s')
      | 0 =>
          if hi_is_zero hi then k prev s
          else
            let again p s' :=
              if length s' <? length s
              then rep_loop body greedy k fuel' 0 (hi_pred hi) p s'
              else k p s' in
            if greedy then
              match body prev s again with
              | Some a => Some a
              | None => k prev s
              end
            else
              match k prev s with
              | Some a => Some a
              | None => body prev s again
              end
      end
  end.

(** Backtracking matcher in continuation-passing style: [prev] is the
    character before the current position (none at the start of the
    string), [s] the rest of the string; alternatives are tried in the
    engine's priority order and the first one the continuation accepts
    wins. *)
Fixpoint run (r : re_pattern) (prev : option N) (s : text) (k : cont)
         {struct r} : option A :=
  match r with
  | Eps => k prev s
  | Lit c =>
      match s with
      | x :: s' => if ci_eq X c x then k (Some x) s' else None
      | [] => None
      end
  | Any =>
      match s with
      | x :: s' => if (x =? 10)%N then None else k (Some x) s'
      | [] => None
      end
  | Cls neg items =>
      match s with
      | x :: s' => if xorb neg (cls_mem items x) then k (Some x) s' else None
      | [] => None
      end
  | Bound => if at_boundary prev s then k prev s else None
  | NotBound => if at_boundary prev s then None else k prev s
  | Bol => match prev with None => k prev s | Some _ => None end
  | Eol =>
      match s with
      | [] => k prev s
      | [c] => if (c =? 10)%N then k prev s else None
      | _ => None
      end
  | Seq r1 r2 => run r1 prev s (fun p s' => run r2 p s' k)
  | Alt r1 r2 =>
      match run r1 prev s k with
      | Some a => Some a
      | None => run r2 prev s k
      end
  | Rep greedy lo hi r' =>
      rep_loop (run r') greedy k (rep_fuel lo hi s) lo hi prev s
  end.
End Run.

(** A match starting exactly here: the number of characters it spans.
    With [adv] (the engine's must-advance flag) an empty match is
    rejected and the engine backtracks for a longer one. *)
Definition match_here (r : re_pattern) (adv : bool) (prev : option N) (s : text)
  : option nat :=
  run r prev s
      (fun _ s' =>
         if adv && (length s' =? length s) then None
         else Some (length s - length s')).

(** [re.search]: is there a match starting anywhere? *)
Fixpoint search_from (r : re_pattern) (prev : option N) (s : text) : bool :=
  match match_here r false prev s with
  | Some _ => true
  | None =>
      match s with
      | [] => false
      | c :: s' => search_from r (Some c) s'
      end
  end.

Definition re_search (r : re_pattern) (s : text) : bool := search_from r None s.
End Engine.

(** ** Reading pattern syntax

    A reader for the fragment of [re] syntax above: literals, [.], [^],
    [$], the escapes [\d \D \s \S \w \W \b \B \n \t \r \f \v \a \xHH
    \uHHHH], escaped punctuation, character sets with ranges and
    negation, groups, alternation and the greedy and lazy quantifiers
    [* + ? {m} {m,} {m,n} {,n}].  [None] stands for a pattern the reader
    rejects (for CPython: [re.error]). *)

Definition isc (a : ascii) (c : N) : bool := (c =? N_of_ascii a)%N.
Definition DQUOTE : N := 34.

Definition hexval (c : N) : option N :=
  if between 48 57 c then Some (c - 48)%N
  else if between 97 102 c then Some (c - 87)%N
  else if between 65 70 c then Some (c - 55)%N
  else None.

Fixpoint parse_hex (n : nat) (acc : N) (s : text) : option (N * text) :=
  match n with
  | 0 => Some (acc, s)
  | S n' =>
      match s with
      | c :: s' =>
          match hexval c with
          | Some v => parse_hex n' (acc * 16 + v)%N s'
          | None => None
          end
      | [] => None
      end
  end.

Fixpoint parse_nat (acc : option nat) (s : text) : option nat * text :=
  match s with
  | c :: s' =>
      if ascii_isdigit c
      then parse_nat (Some (10 * match acc with Some a => a | None => 0 end
                            + N.to_nat (c - 48))) s'
      else (acc, s)
  | [] => (acc, s)
  end.

(* escapes that denote one character, shared by both contexts *)
Definition char_escape (c : N) (s : text) : option (N * text) :=
  if isc "n" c then Some (10%N, s)
  else if isc "t" c then Some (9%N, s)
  else if isc "r" c then Some (13%N, s)
  else if isc "f" c then Some (12%N, s)
  else if isc "v" c then Some (11%N, s)
  else if isc "a" c then Some (7%N, s)
  else if isc "x" c then parse_hex 2 0 s
  else if isc "u" c then parse_hex 4 0 s
  else if ascii_isalpha c || ascii_isdigit c then None
  else Some (c, s).

Definition category_escape (c : N) : option citem :=
  if isc "d" c then Some IDigit
  else if isc "D" c then Some INotDigit
  else if isc "s" c then Some ISpace
  else if isc "S" c then Some INotSpace
  else if isc "w" c then Some IWord
  else if isc "W" c then Some INotWord
  else None.

(* after a backslash, outside a set *)
Definition parse_escape (s : text) : option (re_pattern * text) :=
  match s with
  | [] => None
  | c :: s' =>
      match category_escape c with
      | Some i => Some (Cls false [i], s')
      | None =>
          if isc "b" c then Some (Bound, s')
          else if isc "B" c then Some (NotBound, s')
          else match char_escape c s' with
               | Some (x, rest) => Some (Lit x, rest)
               | None => None
               end
      end
  end.

(* one member of a set: a character (left) or a category (right) *)
Definition class_atom (s : text) : option ((N + citem) * text) :=
  match s with
  | [] => None
  | c :: s' =>
      if isc "\" c then
        match s' with
        | [] => None
        | e :: s'' =>
            match category_escape e with
            | Some i => Some (inr i, s'')
            | None =>
                if isc "b" e then Some (inl 8%N, s'')
                else match char_escape e s'' with
                     | Some (x, rest) => Some (inl x, rest)
                     | None => None
                     end
            end
        end
      else Some (inl c, s')
  end.

Definition range_follows (s : text) : bool :=
  match s with
  | d :: e :: _ => isc "-" d && negb (isc "]" e)
  | _ => false
  end.

Fixpoint parse_class (fuel : nat) (first : bool) (acc : list citem) (s : text)
  : option (list citem * text) :=
  match fuel with
  | 0 => None
  | S f =>
      match s with
      | [] => None
      | c :: s' =>
          if isc "]" c && negb first then Some (rev acc, s')
          else
            match class_atom s with
            | None => None
            | Some (inr i, rest) =>
                if range_follows rest then None
                else parse_class f false (i :: acc) rest
            | Some (inl lo, rest) =>
                if range_follows rest then
                  match class_atom (tl rest) with
                  | Some (inl hi, rest') =>
                      if (hi <? lo)%N then None
                      else parse_class f false (IRange lo hi :: acc) rest'
                  | _ => None
                  end
                else parse_class f false (IChar lo :: acc) rest
            end
      end
  end.

(* the inside of {...}: bounds and the text after the closing brace *)
Definition parse_braces (s : text) : option ((nat * option nat) * text) :=
  let '(lo, s1) := parse_nat None s in
  match s1 with
  | c :: s2 =>
      if isc "}" c then
        match lo with Some n => Some ((n, Some n), s2) | None => None end
      else if isc "," c then
        let '(hi, s3) := parse_nat None s2 in
        match s3 with
        | d :: s4 =>
            if isc "}" d
            then Some ((match lo with Some n => n | None => 0 end, hi), s4)
            else None
        | [] => None
        end
      else None
  | [] => None
  end.

Definition parse_quant (s : text) : option ((nat * option nat) * text) :=
  match s with
  | c :: s' =>
      if isc "*" c then Some ((0, None), s')
      else if isc "+" c then Some ((1, None), s')
      else if isc "?" c then Some ((0, Some 1), s')
      else if isc "{" c then parse_braces s'
      else None
  | [] => None
  end.

Definition bounds_ok (b : nat * option nat) : bool :=
  match snd b with Some h => fst b <=? h | None => true end.

(* an assertion or an empty item cannot be repeated *)
Definition repeatable (a : re_pattern) : bool :=
  match a with
  | Eps | Bound | NotBound | Bol | Eol => false
  | _ => true
  end.

(* wrap an atom in the quantifier that follows it, if any *)
Definition quantified (a : re_pattern) (s : text) : option (re_pattern * text) :=
  match parse_quant s with
  | None => Some (a, s)
  | Some (b, s1) =>
      if negb (bounds_ok b) || negb (repeatable a) then None
      else
        let '(greedy, s2) :=
          match s1 with
          | c :: s1' => if isc "?" c then (false, s1') else (true, s1)
          | [] => (true, s1)
          end in
        match parse_quant s2 with
        | Some _ => None                       (* multiple repeat *)
        | None => Some (Rep greedy (fst b) (snd b) a, s2)
        end
  end.

Definition mk_seq (a b : re_pattern) : re_pattern :=
  match a, b with
  | Eps, _ => b
  | _, Eps => a
  | _, _ => Seq a b
  end.

Definition at_branch_end (s : text) : bool :=
  match s with
  | [] => true
  | c :: _ => isc "|" c || isc ")" c
  end.

Fixpoint parse_alt (fuel : nat) (s : text) : option (re_pattern * text) :=
  match fuel with
  | 0 => None
  | S f =>
      match parse_seq f s with
      | None => None
      | Some (r, rest) =>
          match rest with
          | c :: rest' =>
              if isc "|" c then
                match parse_alt f rest' with
                | Some (r2, rest2) => Some (Alt r r2, rest2)
                | None => None
                end
              else Some (r, rest)
          | [] => Some (r, rest)
          end
      end
  end

with parse_seq (fuel : nat) (s : text) : option (re_pattern * text) :=
  match fuel with
  | 0 => None
  | S f =>
      if at_branch_end s then Some (Eps, s)
      else
        match parse_atom f s with
        | None => None
        | Some (a, rest) =>
            match quantified a rest with
            | None => None
            | Some (q, rest') =>
                match parse_seq f rest' with
                | Some (r, rest2) => Some (mk_seq q r, rest2)
                | None => None
                end
            end
        end
  end

with parse_atom (fuel : nat) (s : text) : option (re_pattern * text) :=
  match fuel with
  | 0 => None
  | S f =>
      match s with
      | [] => None
      | c :: s' =>
          if isc "(" c then
            let body :=
              match s' with
              | q :: s'' =>
                  if isc "?" q then
                    match s'' with
                    | d :: s3 => if isc ":" d then Some s3 else None
                    | [] => None
                    end
                  else Some s'
              | [] => Some s'
              end in
            match body with
            | None => None
            | Some b =>
                match parse_alt f b with
                | Some (r, e :: rest) => if isc ")" e then Some (r, rest) else None
                | _ => None
                end
            end
          else if isc "[" c then
            let '(neg, s1) :=
              match s' with
              | n :: s'' => if isc "^" n then (true, s'') else (false, s')
              | [] => (false, s')
              end in
            match parse_class (S (length s1)) true [] s1 with
            | Some (items, rest) => Some (Cls neg items, rest)
            | None => None
            end
          else if isc "\" c then parse_escape s'
          else if isc "." c then Some (Any, s')
          else if isc "^" c then Some (Bol, s')
          else if isc "$" c then Some (Eol, s')
          else if isc "*" c || isc "+" c || isc "?" c then None
          else Some (Lit c, s')
      end
  end.

(** [re.compile] on the fragment. *)
Definition re_parse (src : text) : option re_pattern :=
  match parse_alt (3 * length src + 3) src with
  | Some (r, []) => Some r
  | _ => None
  end.

(** ** The Python runtime

    What the filter calls but does not define.  Statements are proved
    for every runtime.  [json_read] and [re_parse] decide the inputs
    they accept, as CPython does; every other input is left to the
    runtime, which answers with an exception or a value (for a pattern:
    one of the fragment above). *)

Inductive exn : Type :=
  | ReError            (* re.error *)
  | TypeError
  | AttributeError
  | KeyError
  | JSONDecodeError
  | OSError
  | DLPBlocked (msg : text)   (* the Exception raised by inlet in block mode *)
  | OtherError (tag : N).

Inductive outcome (A : Type) : Type :=
  | Ok (a : A)
  | Raise (e : exn).
Arguments Ok {A} a.
Arguments Raise {A} e.

Definition bind {A B} (m : outcome A) (f : A -> outcome B) : outcome B :=
  match m with
  | Ok a => f a
  | Raise e => Raise e
  end.

Notation "x <- m ;; k" := (bind m (fun x => k))
  (at level 61, m at next level, right associativity).

#[warnings="-register-all"]
Inductive json : Type :=
  | JNull
  | JBool (b : bool)
  | JNum (lexeme : text)
  | JStr (s : text)
  | JArr (items : list json)
  | JObj (members : list (text * json)).   (* members in document order *)

Inductive decoder : Type :=
  | Xlsx | Xls | Csv | Pdf | Docx | Pptx | PlainText.

Record runtime := {
    rt_unicode  : unicode_ext;
    rt_json     : text -> outcome json;           (* json.loads *)
    rt_compile  : text -> outcome re_pattern;          (* re.compile *)
    rt_template : text -> outcome (text -> text); (* replacement template with a backslash *)
    rt_rank     : list text -> text -> nat;       (* iteration order of a set of str *)
    rt_upload_dir : text;                         (* UPLOAD_DIR *)
    rt_glob     : text -> bool -> outcome (list text);  (* glob.glob(pattern, recursive) *)
    rt_getsize  : text -> outcome Z;              (* os.path.getsize *)
    rt_extract  : decoder -> text -> outcome text (* the per-format extractors *)
  }.

(** *** JSON objects of strings *)

Definition json_ws (c : N) : bool :=
  (c =? 32)%N || (c =? 9)%N || (c =? 10)%N || (c =? 13)%N.

Fixpoint skip_ws (s : text) : text :=
  match s with
  | c :: s' => if json_ws c then skip_ws s' else s
  | [] => []
  end.

(* after the opening quote *)
Fixpoint json_string (acc : text) (s : text) : option (text * text) :=
  match s with
  | [] => None
  | c :: s' =>
      if (c =? DQUOTE)%N then Some (rev acc, s')
      else if (c <? 32)%N then None
      else if isc "\" c then
        match s' with
        | e :: s'' =>
            if (e =? DQUOTE)%N || isc "\" e || isc "/" e
            then json_string (e :: acc) s''
            else if isc "n" e then json_string (10%N :: acc) s''
            else if isc "t" e then json_string (9%N :: acc) s''
            else if isc "r" e then json_string (13%N :: acc) s''
            else if isc "b" e then json_string (8%N :: acc) s''
            else if isc "f" e then json_string (12%N :: acc) s''
            else None
        | [] => None
        end
      else json_string (c :: acc) s'
  end.

Definition json_quoted (s : text) : option (text * text) :=
  match s with
  | c :: s' => if (c =? DQUOTE)%N then json_string [] s' else None
  | [] => None
  end.

(* members after the opening brace, up to and including the closing one *)
Fixpoint json_members (fuel : nat) (acc : list (text * json)) (s : text)
  : option (list (text * json) * text) :=
  match fuel with
  | 0 => None
  | S f =>
      match json_quoted (skip_ws s) with
      | None => None
      | Some (key, s1) =>
          match skip_ws s1 with
          | c :: s2 =>
              if isc ":" c then
                match json_quoted (skip_ws s2) with
                | None => None
                | Some (val, s3) =>
                    match skip_ws s3 with
                    | d :: s4 =>
                        if isc "," d then json_members f ((key, JStr val) :: acc) s4
                        else if isc "}" d then Some (rev ((key, JStr val) :: acc), s4)
                        else None
                    | [] => None
                    end
                end
              else None
          | [] => None
          end
      end
  end.

(** [json.loads] on documents that are one object whose values are
    strings. *)
Definition json_read (s : text) : option json :=
  match skip_ws s with
  | c :: s1 =>
      if isc "{" c then
        match skip_ws s1 with
        | d :: s2 =>
            if isc "}" d then
              match skip_ws s2 with [] => Some (JObj []) | _ => None end
            else
              match json_members (length s1) [] s1 with
              | Some (ms, rest) =>
                  match skip_ws rest with [] => Some (JObj ms) | _ => None end
              | None => None
              end
        | [] => None
        end
      else None
  | [] => None
  end.

Section Runtime.
Variable rt : runtime.
Let X := rt_unicode rt.

Definition json_loads (s : text) : outcome json :=
  match json_read s with
  | Some v => Ok v
  | None => rt_json rt s
  end.

Definition re_compile (src : text) : outcome re_pattern :=
  match re_parse src with
  | Some r => Ok r
  | None => rt_compile rt src
  end.

(* the pattern argument of re.search / re.sub: a str is compiled,
   anything else is a TypeError *)
Definition compile_value (v : json) : outcome re_pattern :=
  match v with
  | JStr src => re_compile src
  | _ => Raise TypeError
  end.

(* the replacement argument of re.sub: literal unless it has a backslash *)
Definition re_template (repl : text) : outcome (text -> text) :=
  if existsb (isc "\") repl then rt_template rt repl
  else Ok (fun _ => repl).
End Runtime.

(** ** [re.sub]

  The text is cut into the pieces the engine's left-to-right scan
  produces: a [Hit] for each match found (empty matches included; right
  after an empty match the engine must advance) and a [Keep] for each
  character at which no match starts. *)

Inductive piece : Type :=
  | Keep (c : N)
  | Hit (m : text).

Section Sub.
Variable X : unicode_ext.

Fixpoint re_scan (fuel : nat) (r : re_pattern) (adv : bool)
         (prev : option N) (s : text) : list piece :=
  match fuel with
  | 0 => []
  | S fuel' =>
      match match_here X r adv prev s with
      | Some n =>
          Hit (firstn n s)
              :: re_scan fuel' r (n =? 0) (last_char prev (firstn n s)) (skipn n s)
      | None =>
          match s with
          | [] => []
          | c :: s' => Keep c :: re_scan fuel' r false (Some c) s'
          end
      end
  end.

Definition scan_fuel (s : text) : nat := 2 * length s + 2.

Definition re_pieces (r : re_pattern) (s : text) : list piece :=
  re_scan (scan_fuel s) r false None s.

Definition piece_in (p : piece) : text :=
  match p with Keep c => [c] | Hit m => m end.
Definition piece_out (repl : text -> text) (p : piece) : text :=
  match p with Keep c => [c] | Hit m => repl m end.

Definition re_sub (r : re_pattern) (repl : text -> text) (s : text) : text :=
  concat (map (piece_out repl) (re_pieces r s)).
End Sub.

(** ** Configuration and the detector registry *)

Record Valves := {
  enabled : bool;
  mode : text;
  block_ssn : bool;
  block_credit_cards : bool;
  block_phi : bool;
  block_credentials : bool;
  block_bank_accounts : bool;
  block_standalone_dates : bool;
  scan_file_uploads : bool;
  max_file_size_mb : Z;
  log_detections : bool;
  custom_patterns : text
  }.

Definition default_valves : Valves :=
  {| enabled := true;
     mode := txt "block";
     block_ssn := true;
     block_credit_cards := true;
     block_phi := true;
     block_credentials := true;
     block_bank_accounts := true;
     block_standalone_dates := true;
     scan_file_uploads := true;
     max_file_size_mb := 50;
     log_detections := true;
     custom_patterns := txt "{}" |}.

(* one entry of self.patterns; the "regex" value of a custom entry is
 whatever JSON value the configuration gave *)
Record pattern := {
  regex : json;
  description : text;
  valve : text;
  severity : text
  }.

Definition builtin (src : text) (desc vlv sev : string) : pattern :=
  {| regex := JStr src; description := txt desc; valve := txt vlv;
     severity := txt sev |}.

Definition dob_label : string :=
  "\b(?:DOB|D\.O\.B\.?|date\s+of\s+birth|birth\s*date|birth\s*day|b[\-\s]?day|born(?:\s+on)?".

Definition patterns : list (text * pattern) :=
  [ (txt "ssn",
     builtin (txt "\b\d{3}[-\u2013\u2014\s]?\d{2}[-\u2013\u2014\s]?\d{4}\b")
             "Social Security Number" "block_ssn" "critical");
    (txt "ssn_labeled",
     builtin (txt "(?:social\s*security(?:\s*(?:number|no\.?|num\.?|#))?|ssn|ss\s*#|ss\s*no\.?)[\s:.=#]*\d{3}[-\u2013\u2014\s]?\d{2}[-\u2013\u2014\s]?\d{4}")
             "Social Security Number (labeled)" "block_ssn" "critical");
    (txt "credit_card",
     builtin (txt "\b(?:4\d{3}|5[1-5]\d{2}|3[47]\d{2}|6(?:011|5\d{2}))[-\s]?\d{4}[-\s]?\d{4}[-\s]?\d{4}\b")
             "Credit Card Number" "block_credit_cards" "critical");
    (txt "credit_card_generic",
     builtin (txt "\b(?:\d{4}[-\s]){3}\d{4}\b")
             "Potential Credit Card Number" "block_credit_cards" "high");
    (txt "phi_mrn",
     builtin (txt "\b(?:MRN|Medical Record|Patient ID)[\s:#]*\d{5,}\b")
             "Medical Record Number" "block_phi" "critical");
    (txt "phi_dob",
     builtin (txt (dob_label ++ "|fecha\s+de\s+nacimiento)[\s:]*\d{1,2}[/\-\.]\d{1,2}[/\-\.]\d{2,4}\b"))
             "Date of Birth (labeled)" "block_phi" "high");
    (txt "phi_dob_iso",
     builtin (txt (dob_label ++ ")[\s:]*\d{4}[/\-\.]\d{1,2}[/\-\.]\d{1,2}\b"))
             "Date of Birth - ISO format" "block_phi" "high");
    (txt "phi_dob_text_month",
     builtin (txt (dob_label ++ ")[\s:]*(?:Jan(?:uary)?|Feb(?:ruary)?|Mar(?:ch)?|Apr(?:il)?|May|Jun(?:e)?|Jul(?:y)?|Aug(?:ust)?|Sep(?:t(?:ember)?)?|Oct(?:ober)?|Nov(?:ember)?|Dec(?:ember)?)\.?\s+\d{1,2},?\s+\d{2,4}"))
             "Date of Birth - text month" "block_phi" "high");
    (txt "phi_dob_standalone",
     builtin (txt "\b(?:0?[1-9]|1[0-2])[/\-](?:0?[1-9]|[12]\d|3[01])[/\-](?:19|20)\d{2}\b")
             "Date Pattern (MM/DD/YYYY)" "block_standalone_dates" "medium");
    (txt "phi_dob_standalone_iso",
     builtin (txt "\b(?:19|20)\d{2}[/\-](?:0?[1-9]|1[0-2])[/\-](?:0?[1-9]|[12]\d|3[01])\b")
             "Date Pattern (YYYY-MM-DD)" "block_standalone_dates" "medium");
    (txt "phi_diagnosis",
     builtin (txt "\b(?:ICD[-\s]?(?:9|10)[-\s]?(?:CM|PCS)?[\s:#]*[A-Z]\d{2}(?:\.\d{1,4})?)\b")
             "ICD Diagnosis Code" "block_phi" "medium");
    (txt "api_key",
     builtin (txt "\b(?:sk-[a-zA-Z0-9]{20,}|api[_\-]?key[\s=:]+[" ++ [DQUOTE]
                ++ txt "\']?[a-zA-Z0-9_\-]{16,})")
             "API Key" "block_credentials" "critical");
    (txt "password_inline",
     builtin (txt "(?:password|passwd|pwd)[\s]*[=:]+[\s]*[" ++ [DQUOTE]
                ++ txt "\']?[^\s" ++ [DQUOTE] ++ txt "\']{8,}")
             "Inline Password" "block_credentials" "critical");
    (txt "connection_string",
     builtin (txt "(?:Server|Data Source|Host|Provider)=[^;\n]+;(?:.*?(?:Password|Pwd|User ID)=[^;\n]+)")
             "Database Connection String" "block_credentials" "critical");
    (txt "aws_key",
     builtin (txt "\b(?:AKIA|ASIA)[A-Z0-9]{16}\b")
             "AWS Access Key" "block_credentials" "critical");
    (txt "private_key",
     builtin (txt "-----BEGIN (?:RSA |EC |DSA )?PRIVATE KEY-----")
             "Private Key" "block_credentials" "critical");
    (txt "bank_routing",
     builtin (txt "\b(?:routing|ABA)[\s#:]*\d{9}\b")
             "Bank Routing Number" "block_bank_accounts" "critical");
    (txt "bank_account",
     builtin (txt "\b(?:account|acct)[\s#:]*\d{8,17}\b")
             "Bank Account Number" "block_bank_accounts" "critical") ].

(* getattr(self.valves, valve_name, True), at the toggle names the
 registry uses; any other name is absent and yields the default *)
Definition getattr_valve (v : Valves) (name : text) : bool :=
  if text_eqb name (txt "block_ssn") then block_ssn v
  else if text_eqb name (txt "block_credit_cards") then block_credit_cards v
  else if text_eqb name (txt "block_phi") then block_phi v
  else if text_eqb name (txt "block_credentials") then block_credentials v
  else if text_eqb name (txt "block_bank_accounts") then block_bank_accounts v
  else if text_eqb name (txt "block_standalone_dates") then block_standalone_dates v
  else true.

(* d[k] = v on an insertion-ordered dict *)
Fixpoint dict_set {V : Type} (k : text) (v : V) (d : list (text * V))
  : list (text * V) :=
  match d with
  | [] => [(k, v)]
  | (k', v') :: d' =>
      if text_eqb k k' then (k, v) :: d' else (k', v') :: dict_set k v d'
  end.

(* the items of the dict json.loads builds from an object *)
Definition dict_items {V : Type} (members : list (text * V)) : list (text * V) :=
  fold_left (fun d kv => dict_set (fst kv) (snd kv) d) members [].

Definition finding : Type := (text * text * text)%type.   (* name, description, severity *)

Definition toggled_on (v : Valves) (np : text * pattern) : bool :=
  getattr_valve v (valve (snd np)).

Section Filter.
Variable rt : runtime.
Let X := rt_unicode rt.

Definition custom_entry (name : text) (rx : json) : text * pattern :=
  (txt "custom_" ++ name,
   {| regex := rx;
      description := txt "Custom: " ++ name;
      valve := txt "enabled";
      severity := txt "high" |}).

Definition _get_active_patterns (v : Valves) : outcome (list (text * pattern)) :=
  let active := filter (toggled_on v) patterns in
  match json_loads rt (custom_patterns v) with
  | Ok (JObj members) =>
      Ok (fold_left
            (fun act kv =>
               let e := custom_entry (fst kv) (snd kv) in
               dict_set (fst e) (snd e) act)
            (dict_items members) active)
  | Ok _ => Raise AttributeError          (* no .items() *)
  | Raise JSONDecodeError => Ok active
  | Raise TypeError => Ok active
  | Raise e => Raise e
  end.

(* the loop of _scan_text; [None] is Python's None in place of a str *)
Fixpoint scan_loop (active : list (text * pattern)) (arg : option text)
  : outcome (list finding) :=
  match active with
  | [] => Ok []
  | (name, p) :: rest =>
      r <- compile_value rt (regex p) ;;
      match arg with
      | None => Raise TypeError
      | Some t =>
          ds <- scan_loop rest arg ;;
          Ok (if re_search X r t
              then (name, description p, severity p) :: ds
              else ds)
      end
  end.

Definition _scan_text (v : Valves) (arg : option text) : outcome (list finding) :=
  active <- _get_active_patterns v ;;
  scan_loop active arg.

Definition placeholder (name : text) : text :=
  txt "[REDACTED-" ++ str_upper X name ++ txt "]".

(* one iteration of the loop of _redact_text *)
Definition redact_step (np : text * pattern) (redacted : text) : outcome text :=
  r <- compile_value rt (regex (snd np)) ;;
  repl <- re_template rt (placeholder (fst np)) ;;
  Ok (re_sub X r repl redacted).

Fixpoint redact_loop (active : list (text * pattern)) (redacted : text)
  : outcome text :=
  match active with
  | [] => Ok redacted
  | np :: rest =>
      t <- redact_step np redacted ;;
      redact_loop rest t
  end.

Definition _redact_text (v : Valves) (t : text) : outcome text :=
  active <- _get_active_patterns v ;;
  redact_loop active t.
End Filter.

(** ** Requests *)

Inductive Item : Type :=
  | ItemText (t : text)     (* a dict whose "type" is "text"; a missing "text" reads as "" *)
  | ItemOther (tag : N).    (* any other member of a content list *)

Inductive Content : Type :=
  | CStr (t : text)         (* a missing "content" reads as "" *)
  | CList (items : list Item)
  | COther (repr : text).   (* neither str nor list; [repr] is its str() *)

Record Message := {
  role : option text;
  content : Content
  }.

Inductive FileRef : Type :=
  | FileDict (ftype fid fname : option text)
  | FileOther (tag : N).    (* not a dict *)

Record Metadata := {
  md_files : option (list FileRef)
  }.

Record Body := {
  messages : option (list Message);
  files : option (list FileRef);
  metadata : option Metadata
  }.

Definition get {A : Type} (o : option A) (default : A) : A :=
  match o with Some a => a | None => default end.

Definition NOTICE_EMPTY : text := txt "Please analyze the attached file.".

(** ** File scanning *)

Inductive event : Type :=
  | EvGlob (pat : text) (recursive : bool)
  | EvGetsize (path : text)
  | EvExtract (d : decoder) (path : text).

(* os.path.join of two components *)
Definition path_join (a b : text) : text :=
  if starts_with (txt "/") b then b
  else match last_char None a with
       | None => b
       | Some c => if isc "/" c then a ++ b else a ++ txt "/" ++ b
       end.

(* file_name.rsplit(".", 1)[-1] when there is a dot *)
Fixpoint after_last_dot (s : text) : option text :=
  match s with
  | [] => None
  | c :: s' =>
      match after_last_dot s' with
      | Some e => Some e
      | None => if isc "." c then Some s' else None
      end
  end.

Definition one_of (names : list string) (s : text) : bool :=
  existsb (fun n => text_eqb s (txt n)) names.

Definition extractors (ext : text) : option decoder :=
  if one_of ["xlsx"; "xlsm"]%string ext then Some Xlsx
  else if one_of ["xls"]%string ext then Some Xls
  else if one_of ["csv"; "tsv"]%string ext then Some Csv
  else if one_of ["pdf"]%string ext then Some Pdf
  else if one_of ["docx"]%string ext then Some Docx
  else if one_of ["pptx"]%string ext then Some Pptx
  else None.

Definition text_extensions : list string :=
  ["txt"; "md"; "json"; "xml"; "yaml"; "yml"; "log";
   "py"; "js"; "ts"; "html"; "css"; "sql"; "sh"; "bat";
   "ini"; "cfg"; "conf"; "env"; "properties"]%string.

Section Files.
Variable rt : runtime.
Let X := rt_unicode rt.

Definition _get_file_extension (file_name : text) : text :=
  match after_last_dot file_name with
  | Some e => str_lower X e
  | None => []
  end.

(* which extractor _extract_text_from_file dispatches to *)
Definition extractor_of (file_name : text) : option decoder :=
  let ext := _get_file_extension file_name in
  match extractors ext with
  | Some d => Some d
  | None => if one_of text_extensions ext then Some PlainText else None
  end.

Definition glob_first (file_id : text) : text :=
  path_join (rt_upload_dir rt) (file_id ++ txt "*").
Definition glob_nested (file_id : text) : text :=
  path_join (path_join (rt_upload_dir rt) (txt "**")) (file_id ++ txt "*").

(* the first candidate of the flat glob, else of the recursive one *)
Definition _resolve_file_path (file_id file_name : text)
  : outcome (option text) * list event :=
  let g1 := EvGlob (glob_first file_id) false in
  let g2 := EvGlob (glob_nested file_id) true in
  match rt_glob rt (glob_first file_id) false with
  | Raise e => (Raise e, [g1])
  | Ok (p :: _) => (Ok (Some p), [g1])
  | Ok [] =>
      match rt_glob rt (glob_nested file_id) true with
      | Raise e => (Raise e, [g1; g2])
      | Ok (p :: _) => (Ok (Some p), [g1; g2])
      | Ok [] => (Ok None, [g1; g2])
      end
  end.

(** The body of the loop of [_scan_files] for one file reference: what
  it adds to [flagged_files], and the file-system calls it makes, in
  order.  An exception anywhere inside the [try] abandons the file. *)
Definition scan_file (v : Valves) (f : FileRef)
  : option (text * list finding) * list event :=
  match f with
  | FileOther _ => (None, [])
  | FileDict ftype fid fname =>
      let file_type := get ftype [] in
      if negb (text_eqb file_type (txt "file") || text_eqb file_type []) then (None, [])
      else
        let file_id := get fid [] in
        let file_name := get fname (txt "unknown") in
        match file_id with
        | [] => (None, [])
        | _ :: _ =>
            let resolved := _resolve_file_path file_id file_name in
            match resolved with
            | (Raise _, tr) => (None, tr)
            | (Ok None, tr) => (None, tr)
            | (Ok (Some []), tr) => (None, tr)
            | (Ok (Some ((_ :: _) as file_path)), tr) =>
                let tr1 := tr ++ [EvGetsize file_path] in
                match rt_getsize rt file_path with
                | Raise _ => (None, tr1)
                | Ok file_size =>
                    if (file_size >? max_file_size_mb v * 1024 * 1024)%Z
                    then (None, tr1)
                    else
                      match extractor_of file_name with
                      | None => (None, tr1)
                      | Some d =>
                          let tr2 := tr1 ++ [EvExtract d file_path] in
                          match rt_extract rt d file_path with
                          | Raise _ => (None, tr2)
                          | Ok [] => (None, tr2)
                          | Ok ((_ :: _) as t) =>
                              match _scan_text rt v (Some t) with
                              | Raise _ => (None, tr2)
                              | Ok [] => (None, tr2)
                              | Ok ((_ :: _) as detections) =>
                                  (Some (file_name, detections), tr2)
                              end
                          end
                      end
                end
            end
        end
  end.

Fixpoint scan_files_loop (v : Valves) (fs : list FileRef)
  : list (text * list finding) * list event :=
  match fs with
  | [] => ([], [])
  | f :: rest =>
      let '(hit, tr) := scan_file v f in
      let '(flagged, tr') := scan_files_loop v rest in
      (match hit with Some h => h :: flagged | None => flagged end, tr ++ tr')
  end.

Definition _scan_files (v : Valves) (body : Body)
  : list (text * list finding) * list event :=
  scan_files_loop v (get (files body) []).
End Files.

(** ** The inbound hook *)

Definition text_eq_dec : forall a b : text, {a = b} + {a <> b} :=
  list_eq_dec N.eq_dec.

Fixpoint insert_by (rank : text -> nat) (x : text) (l : list text) : list text :=
  match l with
  | [] => [x]
  | y :: l' => if rank x <=? rank y then x :: l else y :: insert_by rank x l'
  end.

Definition description_of (d : finding) : text := snd (fst d).

Section Inlet.
Variable rt : runtime.
Let X := rt_unicode rt.

(** Iterating a [set] of strings: its distinct elements, in an order
  the runtime chooses. *)
Definition py_set (l : list text) : list text :=
  let d := nodup text_eq_dec l in
  fold_right (insert_by (rt_rank rt d)) [] d.

Definition sanitize_item (it : Item) : Item :=
  match it with
  | ItemText t => if is_blank X t then ItemText NOTICE_EMPTY else it
  | ItemOther _ => it
  end.

Definition sanitize_message (m : Message) : Message :=
  match content m with
  | CList items =>
      {| role := role m; content := CList (map sanitize_item items) |}
  | CStr t =>
      if is_blank X t
      then {| role := role m; content := CStr NOTICE_EMPTY |}
      else m
  | COther _ => m
  end.

Definition is_user (m : Message) : bool :=
  match role m with
  | Some r => text_eqb r (txt "user")
  | None => false
  end.

Definition item_texts (items : list Item) : list text :=
  flat_map (fun it => match it with ItemText t => [t] | ItemOther _ => [] end)
           items.

Definition text_to_scan (m : Message) : text :=
  match content m with
  | CList items => join (txt " ") (item_texts items)
  | CStr t => t
  | COther repr => repr
  end.

Fixpoint scan_messages (v : Valves) (ms : list Message) : outcome (list finding) :=
  match ms with
  | [] => Ok []
  | m :: rest =>
      if is_user m then
        detections <- _scan_text rt v (Some (text_to_scan m)) ;;
        more <- scan_messages v rest ;;
        Ok (detections ++ more)
      else scan_messages v rest
  end.

Definition types_found (ds : list finding) : text :=
  join (txt ", ") (py_set (map description_of ds)).

Definition message_part (message_detections : list finding) : text :=
  txt "Your message text contains sensitive information ("
    ++ types_found message_detections ++ txt ").".

Definition file_line (fd : text * list finding) : text :=
  txt "  - **" ++ fst fd ++ txt "**: " ++ types_found (snd fd).

Definition files_part (file_detections : list (text * list finding)) : text :=
  txt "Uploaded files contain sensitive information:" ++ [10%N]
    ++ join [10%N] (map file_line file_detections).

Definition error_parts (message_detections : list finding)
           (file_detections : list (text * list finding)) : list text :=
  (match message_detections with [] => [] | _ => [message_part message_detections] end)
    ++ (match file_detections with [] => [] | _ => [files_part file_detections] end).

Definition block_message (message_detections : list finding)
           (file_detections : list (text * list finding)) : text :=
  txt "**DLP Filter Blocked This Message**" ++ [10%N; 10%N]
    ++ join [10%N; 10%N] (error_parts message_detections file_detections)
    ++ [10%N; 10%N]
    ++ txt "For security and compliance, this message has been blocked from being sent to the AI service."
    ++ [10%N; 10%N]
    ++ txt "Please remove the sensitive data and try again.".

Definition redact_item (v : Valves) (it : Item) : outcome Item :=
  match it with
  | ItemText t => t' <- _redact_text rt v t ;; Ok (ItemText t')
  | ItemOther _ => Ok it
  end.

Fixpoint redact_items (v : Valves) (items : list Item) : outcome (list Item) :=
  match items with
  | [] => Ok []
  | it :: rest =>
      it' <- redact_item v it ;;
      rest' <- redact_items v rest ;;
      Ok (it' :: rest')
  end.

Definition redact_message (v : Valves) (m : Message) : outcome Message :=
  if negb (is_user m) then Ok m
  else
    match content m with
    | CList items =>
        items' <- redact_items v items ;;
        Ok {| role := role m; content := CList items' |}
    | CStr t =>
        t' <- _redact_text rt v t ;;
        Ok {| role := role m; content := CStr t' |}
    | COther repr =>
        t' <- _redact_text rt v repr ;;
        Ok {| role := role m; content := CStr t' |}
    end.

Fixpoint redact_messages (v : Valves) (ms : list Message) : outcome (list Message) :=
  match ms with
  | [] => Ok []
  | m :: rest =>
      m' <- redact_message v m ;;
      rest' <- redact_messages v rest ;;
      Ok (m' :: rest')
  end.

(* [f for f in fs if f.get("name") not in flagged_names] *)
Fixpoint strip_files (flagged_names : list text) (fs : list FileRef)
  : outcome (list FileRef) :=
  match fs with
  | [] => Ok []
  | f :: rest =>
      match f with
      | FileOther _ => Raise AttributeError       (* no .get *)
      | FileDict _ _ fname =>
          rest' <- strip_files flagged_names rest ;;
          let flagged :=
            match fname with
            | Some n => existsb (text_eqb n) flagged_names
            | None => false
            end in
          Ok (if flagged then rest' else f :: rest')
      end
  end.

Definition strip_metadata (flagged_names : list text) (md : option Metadata)
  : outcome (option Metadata) :=
  match md with
  | Some {| md_files := Some fs |} =>
      fs' <- strip_files flagged_names fs ;;
      Ok (Some {| md_files := Some fs' |})
  | _ => Ok md
  end.

Definition dlp_notice (flagged_names : list text) : Message :=
  {| role := Some (txt "system");
     content :=
       CStr (txt "[DLP Notice] The following files were removed because they contain sensitive data: "
               ++ join (txt ", ") flagged_names
               ++ txt ". The AI will not see these files.") |}.

Definition with_messages (body : Body) (ms : list Message) : Body :=
  {| messages := match messages body with Some _ => Some ms | None => None end;
     files := files body;
     metadata := metadata body |}.

(** [inlet]: the request to forward, or the exception raised.  The
  request is a dict mutated in place; the value returned here is its
  state when the hook returns. *)
Definition inlet (v : Valves) (body : Body) : outcome Body :=
  if negb (enabled v) then Ok body
  else
    (* sanitize empty content blocks *)
    let msgs := map sanitize_message (get (messages body) []) in
    (* scan message text *)
    message_detections <- scan_messages v msgs ;;
    (* scan uploaded files *)
    let file_detections :=
      if scan_file_uploads v then fst (_scan_files rt v body) else [] in
    match message_detections, file_detections with
    | [], [] => Ok (with_messages body msgs)
    | _, _ =>
        if text_eqb (mode v) (txt "block") then
          Raise (DLPBlocked (block_message message_detections file_detections))
        else if text_eqb (mode v) (txt "redact") then
          msgs' <- match message_detections with
                   | [] => Ok msgs
                   | _ => redact_messages v msgs
                   end ;;
          match file_detections with
          | [] => Ok (with_messages body msgs')
          | _ =>
              let flagged_names := py_set (map fst file_detections) in
              clean_files <- strip_files flagged_names (get (files body) []) ;;
              md' <- strip_metadata flagged_names (metadata body) ;;
              match messages body with
              | None => Raise KeyError
              | Some _ =>
                  Ok {| messages := Some (msgs' ++ [dlp_notice flagged_names]);
                        files := Some clean_files;
                        metadata := md' |}
              end
          end
        else Ok (with_messages body msgs)
    end.
End Inlet.
(** ** A reference runtime and sample requests

    [X0] classifies nothing beyond the built-in tables; [rt0] has an
    empty upload directory and rejects whatever the readers above do not
    accept.  They serve to evaluate the filter on concrete requests. *)

Definition X0 : unicode_ext :=
  {| x_isalpha := fun _ => false; x_isdecimal := fun _ => false;
     x_isnumeric := fun _ => false; x_isspace := fun _ => false;
     x_ci := fun p x => (p =? x)%N; x_range_ci := fun lo hi x => between lo hi x;
     x_upper := fun s => s; x_lower := fun s => s |}.

Definition rt0 : runtime :=
  {| rt_unicode := X0;
     rt_json := fun _ => Raise JSONDecodeError;
     rt_compile := fun _ => Raise ReError;
     rt_template := fun _ => Raise ReError;
     rt_rank := fun _ _ => 0;
     rt_upload_dir := txt "/app/backend/data/uploads";
     rt_glob := fun _ _ => Ok [];
     rt_getsize := fun _ => Raise OSError;
     rt_extract := fun _ _ => Raise OSError |}.

Definition user_says (s : text) : Body :=
  {| messages := Some [ {| role := Some (txt "user"); content := CStr s |} ];
     files := None; metadata := None |}.

(** ** Notions used in the statements *)

(* what re.compile makes of a registry entry *)
Definition compiled (np : text * pattern) : re_pattern :=
  match regex (snd np) with
  | JStr src => match re_parse src with Some r => r | None => Cls false [] end
  | _ => Cls false []
  end.

Definition literal_placeholder (name : text) : text :=
  txt "[REDACTED-" ++ map ascii_upper name ++ txt "]".

Definition with_mode (m : string) (v : Valves) : Valves :=
  {| enabled := enabled v;
     mode := txt m;
     block_ssn := block_ssn v;
     block_credit_cards := block_credit_cards v;
     block_phi := block_phi v;
     block_credentials := block_credentials v;
     block_bank_accounts := block_bank_accounts v;
     block_standalone_dates := block_standalone_dates v;
     scan_file_uploads := scan_file_uploads v;
     max_file_size_mb := max_file_size_mb v;
     log_detections := log_detections v;
     custom_patterns := custom_patterns v |}.

Definition with_custom (c : text) (v : Valves) : Valves :=
  {| enabled := enabled v;
     mode := mode v;
     block_ssn := block_ssn v;
     block_credit_cards := block_credit_cards v;
     block_phi := block_phi v;
     block_credentials := block_credentials v;
     block_bank_accounts := block_bank_accounts v;
     block_standalone_dates := block_standalone_dates v;
     scan_file_uploads := scan_file_uploads v;
     max_file_size_mb := max_file_size_mb v;
     log_detections := log_detections v;
     custom_patterns := c |}.

(* a runtime whose upload directory holds one file, found by every glob *)
Definition rt_one_file (path : text) (size : Z) (extracted : text) : runtime :=
  {| rt_unicode := X0;
     rt_json := fun _ => Raise JSONDecodeError;
     rt_compile := fun _ => Raise ReError;
     rt_template := fun _ => Raise ReError;
     rt_rank := fun _ _ => 0;
     rt_upload_dir := txt "/app/backend/data/uploads";
     rt_glob := fun _ _ => Ok [path];
     rt_getsize := fun _ => Ok size;
     rt_extract := fun _ _ => Ok extracted |}.

Definition is_extract (e : event) : bool :=
  match e with EvExtract _ _ => true | _ => false end.

(* [x] occurs in [s] *)
Definition occurs (x s : text) : Prop := exists pre post, s = pre ++ x ++ post.



Definition quoted (s : text) : text := [DQUOTE] ++ s ++ [DQUOTE].


(* custom_patterns = {"bad": "("} *)
Definition bad_custom_valves : Valves :=
  with_custom (txt "{" ++ quoted (txt "bad") ++ txt ": " ++ quoted (txt "(") ++ txt "}")
              default_valves.

(* is position [p] of the scanned text inside a Keep piece? *)
Fixpoint is_kept (ps : list piece) (p : nat) : bool :=
  match ps with
  | [] => false
  | Keep _ :: ps' => match p with 0 => true | S p' => is_kept ps' p' end
  | Hit m :: ps' => if p <? length m then false else is_kept ps' (p - length m)
  end.

(* the first registry entry and its compiled pattern *)
Definition ssn_entry : text * pattern :=
  (txt "ssn",
   builtin (txt "\b\d{3}[-\u2013\u2014\s]?\d{2}[-\u2013\u2014\s]?\d{4}\b")
           "Social Security Number" "block_ssn" "critical").

Definition re_ssn : re_pattern := Eval vm_compute in compiled ssn_entry.

Definition leak_text : text := txt "123-45-6789 ssn 123456789123456789".
Definition leak_redacted : text :=
  txt "[REDACTED-SSN] [REDACTED-SSN_LABELED]123456789".

(* what one pass of the redactor guarantees of the text it was given *)
Definition pass_replaces_matches (X : unicode_ext) (r : re_pattern)
           (repl : text -> text) (t_in t_out : text) : Prop :=
  concat (map piece_in (re_pieces X r t_in)) = t_in
  /\ t_out = concat (map (piece_out repl) (re_pieces X r t_in))
  /\ forall (a b : text) (c : N),
       t_in = a ++ c :: b ->
       is_kept (re_pieces X r t_in) (length a) = true ->
       match_here X r true (last_char None a) (c :: b) = None.

(* the separators the SSN claim names *)
Definition ssn_separator (c : N) : bool :=
  (c =? 45)%N || (c =? EN_DASH)%N || (c =? EM_DASH)%N || (c =? 32)%N.

Definition ssn_sep_items : list citem :=
  [IChar 45; IChar 8211; IChar 8212; ISpace].

(* digit groups one digit away from 3-2-4 *)
Definition near_miss (a b c : nat) : Prop :=
  In (a, b, c) [(2, 2, 4); (3, 1, 4); (3, 2, 3); (4, 2, 4); (3, 3, 4); (3, 2, 5)].

Definition reports (name : text) (ds : list finding) : Prop :=
  exists f, In f ds /\ fst (fst f) = name.

(* a registry entry whose pattern the reader accepts and whose
 placeholder is a literal replacement *)
Definition plain_entry (rt : runtime) (np : text * pattern) : Prop :=
  compile_value rt (regex (snd np)) = Ok (compiled np)
  /\ re_template rt (placeholder rt (fst np))
     = Ok (fun _ => literal_placeholder (fst np)).

(* one pass of the redactor when nothing can fail *)
Definition sub_step (rt : runtime) (acc : text) (np : text * pattern) : text :=
  re_sub (rt_unicode rt) (compiled np) (fun _ => literal_placeholder (fst np)) acc.

Definition ssn_message : text := txt "My SSN is 123-45-6789".


Definition big_file : FileRef :=
  FileDict (Some (txt "file")) (Some (txt "f1")) (Some (txt "payroll.csv")).
Definition rt_big_file : runtime :=
  rt_one_file (txt "/app/backend/data/uploads/f1_payroll.csv")
              (60 * 1024 * 1024) (txt "SSN 123-45-6789").

(* [k'] fails wherever [k] fails *)
Definition weaker (A : Type) (k k' : cont A) : Prop :=
  forall p s, k p s = None -> k' p s = None.

(* [k] yields [a] on some suffix-length continuation point of [s] *)
Definition reaches (A : Type) (s : text) (k : cont A) (a : A) : Prop :=
  exists p s', length s' <= length s /\ k p s' = Some a.

(* a character \d does not match *)
Definition nondigit (X : unicode_ext) (c : N) : Prop := is_digit X c = false.

Unset Implicit Arguments.

(** ** The outbound hook and further notions *)

Definition is_assistant (m : Message) : bool :=
  match role m with
  | Some r => text_eqb r (txt "assistant")
  | None => false
  end.

(* the body of the loop of [outlet] for one message *)
Definition outlet_message (rt : runtime) (v : Valves) (m : Message) : outcome Message :=
  if negb (is_assistant m) then Ok m
  else
    match content m with
    | CStr t =>
        detections <- _scan_text rt v (Some t) ;;
        match detections with
        | [] => Ok m
        | _ :: _ =>
            t' <- _redact_text rt v t ;;
            Ok {| role := role m; content := CStr t' |}
        end
    | CList _ => Ok m
    | COther _ => Ok m
    end.

Fixpoint outlet_messages (rt : runtime) (v : Valves) (ms : list Message)
  : outcome (list Message) :=
  match ms with
  | [] => Ok []
  | m :: rest =>
      m' <- outlet_message rt v m ;;
      rest' <- outlet_messages rt v rest ;;
      Ok (m' :: rest')
  end.

(** [outlet]: the response to hand back, or the exception raised. *)
Definition outlet (rt : runtime) (v : Valves) (body : Body) : outcome Body :=
  if negb (enabled v) then Ok body
  else
    msgs' <- outlet_messages rt v (get (messages body) []) ;;
    Ok (with_messages body msgs').

(* the finding a registry entry yields when it matches *)
Definition finding_of (np : text * pattern) : finding :=
  (fst np, description (snd np), severity (snd np)).

Definition finding_name (f : finding) : text := fst (fst f).

(* does the entry's pattern compile and match somewhere in [t]? *)
Definition fires (rt : runtime) (t : text) (np : text * pattern) : bool :=
  match compile_value rt (regex (snd np)) with
  | Ok r => re_search (rt_unicode rt) r t
  | Raise _ => false
  end.

(* an entry made from the custom-pattern mapping *)
Definition custom_made (np : text * pattern) : Prop :=
  starts_with (txt "custom_") (fst np) = true
  /\ valve (snd np) = txt "enabled"
  /\ severity (snd np) = txt "high".

(* one iteration of the loop over the custom mapping *)
Definition add_custom (act : list (text * pattern)) (kv : text * json)
  : list (text * pattern) :=
  let e := custom_entry (fst kv) (snd kv) in dict_set (fst e) (snd e) act.

Fixpoint distinctb (l : list text) : bool :=
  match l with
  | [] => true
  | x :: r => negb (existsb (text_eqb x) r) && distinctb r
  end.

(* which file references the stripping of [inlet] keeps *)
Definition survives (flagged_names : list text) (f : FileRef) : bool :=
  match f with
  | FileDict _ _ (Some n) => negb (existsb (text_eqb n) flagged_names)
  | _ => true
  end.

Definition is_dict (f : FileRef) : Prop :=
  match f with FileDict _ _ _ => True | FileOther _ => False end.

Definition has_dot (s : text) : bool := existsb (isc ".") s.


(* the defaults with the SSN toggle off *)
Definition ssn_off : Valves :=
  {| enabled := true;
     mode := txt "block";
     block_ssn := false;
     block_credit_cards := true;
     block_phi := true;
     block_credentials := true;
     block_bank_accounts := true;
     block_standalone_dates := true;
     scan_file_uploads := true;
     max_file_size_mb := 50;
     log_detections := true;
     custom_patterns := txt "{}" |}.

(* the replacement template of the entry's placeholder can be built *)
Definition has_template (rt : runtime) (np : text * pattern) : Prop :=
  exists repl, re_template rt (placeholder rt (fst np)) = Ok repl.

(* an assistant message whose string content the scan finds clean *)
Definition clean_reply (rt : runtime) (v : Valves) (m : Message) : Prop :=
  is_assistant m = true ->
  forall t, content m = CStr t -> _scan_text rt v (Some t) = Ok [].

(* how the outbound hook may change one message *)
Definition outlet_changes (rt : runtime) (v : Valves) (m m' : Message) : Prop :=
  m' = m
  \/ (is_assistant m = true
      /\ exists t t' d ds,
           content m = CStr t
           /\ _scan_text rt v (Some t) = Ok (d :: ds)
           /\ _redact_text rt v t = Ok t'
           /\ m' = {| role := role m; content := CStr t' |}).

Definition reply (s : text) : Message :=
  {| role := Some (txt "assistant"); content := CStr s |}.

Definition chat (ms : list Message) : Body :=
  {| messages := Some ms; files := None; metadata := None |}.

(* what it takes for [_scan_files] to flag the reference [f] as
   [(name, ds)]: every step of the loop body went through *)
Definition scanned_as (rt : runtime) (v : Valves) (f : FileRef)
           (name : text) (ds : list finding) : Prop :=
  exists (ty id fname : option text) (path : text) (size : Z) (d : decoder) (t : text),
    f = FileDict ty id fname
    /\ name = get fname (txt "unknown")
    /\ (get ty [] = txt "file" \/ get ty [] = [])
    /\ get id [] <> []
    /\ fst (_resolve_file_path rt (get id []) name) = Ok (Some path)
    /\ path <> []
    /\ rt_getsize rt path = Ok size
    /\ (size <= max_file_size_mb v * 1024 * 1024)%Z
    /\ extractor_of rt name = Some d
    /\ rt_extract rt d path = Ok t
    /\ t <> []
    /\ _scan_text rt v (Some t) = Ok ds
    /\ ds <> [].

Definition small_file : FileRef :=
  FileDict (Some (txt "file")) (Some (txt "f1")) (Some (txt "payroll.csv")).
Definition rt_small_file : runtime :=
  rt_one_file (txt "/app/backend/data/uploads/f1_payroll.csv")
              (1 * 1024 * 1024) (txt "SSN 123-45-6789").
Definition with_files (fs : list FileRef) (b : Body) : Body :=
  {| messages := messages b; files := Some fs; metadata := metadata b |}.

(* how the inbound hook may change one message of the request *)
Definition inlet_changes (rt : runtime) (v : Valves) (m m' : Message) : Prop :=
  role m' = role m
  /\ (is_user m = false -> m' = sanitize_message rt m)
  /\ (forall t, content (sanitize_message rt m) = CStr t ->
                _scan_text rt v (Some t) = Ok [] ->
                m' = sanitize_message rt m).

Definition notice_text (names : list text) : text :=
  txt "[DLP Notice] The following files were removed because they contain sensitive data: "
    ++ join (txt ", ") names
    ++ txt ". The AI will not see these files.".

Definition says (r : string) (s : text) : Message :=
  {| role := Some (txt r); content := CStr s |}.

(* the entries the custom mapping contributes *)
Definition active_customs (rt : runtime) (c : text) : list (text * pattern) :=
  match json_loads rt c with
  | Ok (JObj members) => fold_left add_custom (dict_items members) []
  | _ => []
  end.

(* every detector toggle that is on in [v] is on in [v'] *)
Definition toggles_le (v v' : Valves) : Prop :=
  forall name, getattr_valve v name = true -> getattr_valve v' name = true.

(* custom_patterns = {"project_code": "PRJ-\\d{5}"} *)
Definition project_valves : Valves :=
  with_custom (txt "{" ++ quoted (txt "project_code") ++ txt ": "
                 ++ quoted (txt "PRJ-\\d{5}") ++ txt "}")
              default_valves.
Definition re_project : re_pattern :=
  Eval vm_compute in
    match re_parse (txt "PRJ-\d{5}") with Some r => r | None => Eps end.

(** * Properties *)

(** ** The registry compiles *)

Lemma Forall_filter_keep {A} (P : A -> Prop) (f : A -> bool) (l : list A) :
  Forall P l -> Forall P (filter f l).
Proof.
  induction 1 as [|x l Hx Hl IH]; simpl; [constructor|].
  destruct (f x); auto.
Qed.

Section RegistryFacts.
Variable rt : runtime.
Let X := rt_unicode rt.

Lemma patterns_plain : Forall (plain_entry rt) patterns.
Proof.
  unfold patterns.
  repeat (apply Forall_cons; [split; vm_compute; reflexivity|]).
  apply Forall_nil.
Qed.

Lemma active_builtin_only (v : Valves) :
  custom_patterns v = txt "{}" ->
  _get_active_patterns rt v = Ok (filter (toggled_on v) patterns).
Proof.
  intros Hc. unfold _get_active_patterns. rewrite Hc. reflexivity.
Qed.

Lemma active_plain (v : Valves) :
  Forall (plain_entry rt) (filter (toggled_on v) patterns).
Proof. apply Forall_filter_keep, patterns_plain. Qed.

Lemma redact_loop_plain (l : list (text * pattern)) :
  Forall (plain_entry rt) l ->
  forall t, redact_loop rt l t = Ok (fold_left (sub_step rt) l t).
Proof.
  induction 1 as [|np l [Hc Ht] _ IH]; intros t; simpl; [reflexivity|].
  unfold redact_step. rewrite Hc. simpl. rewrite Ht. simpl. apply IH.
Qed.

Lemma scan_loop_plain (l : list (text * pattern)) :
  Forall (plain_entry rt) l ->
  forall t,
    scan_loop rt l (Some t)
    = Ok (map (fun np => (fst np, description (snd np), severity (snd np)))
              (filter (fun np => re_search X (compiled np) t) l)).
Proof.
  induction 1 as [|[name p] l [Hc _] _ IH]; intros t; simpl; [reflexivity|].
  simpl in Hc. rewrite Hc. simpl. rewrite IH. simpl.
  destruct (re_search _ _ t); reflexivity.
Qed.
End RegistryFacts.

(** ** Scenario B: redacting one message *)

(** C7: in redact mode with the default toggles, the user message
  "My SSN is 123-45-6789" comes back as "My SSN is [REDACTED-SSN]", on
  every runtime; and without custom patterns the redactor is the
  left-to-right composition, over the enabled detectors in registry
  order, of "replace every match by the literal
  [REDACTED-<ID IN UPPER CASE>]", each applied to the text the previous
  one produced. *)
Theorem C7_redact_ssn_message :
  forall rt : runtime,
    inlet rt (with_mode "redact" default_valves) (user_says ssn_message)
    = Ok (user_says (txt "My SSN is [REDACTED-SSN]"))
    /\ forall (v : Valves) (t : text),
         custom_patterns v = txt "{}" ->
         _redact_text rt v t
         = Ok (fold_left (sub_step rt) (filter (toggled_on v) patterns) t).
Proof.
  intros rt. split.
  - vm_compute. reflexivity.
  - intros v t Hc. unfold _redact_text.
    rewrite (active_builtin_only rt v Hc). cbn [bind].
    apply redact_loop_plain, active_plain.
Qed.

Lemma C7_witness :
  custom_patterns default_valves = txt "{}"
  /\ _redact_text rt0 default_valves ssn_message
     = Ok (fold_left (sub_step rt0) (filter (toggled_on default_valves) patterns)
                     ssn_message).
Proof.
  split; [reflexivity|].
  apply (proj2 (C7_redact_ssn_message rt0) default_valves ssn_message).
  reflexivity.
Defined.

(** ** Scanning the empty text, and None *)

Lemma filter_none {A} (f : A -> bool) (l : list A) :
  Forall (fun x => f x = false) l -> filter f l = [].
Proof.
  induction 1 as [|x l Hx _ IH]; simpl; [reflexivity|]. now rewrite Hx.
Qed.

Lemma builtin_silent_on_empty (X : unicode_ext) :
  Forall (fun np => re_search X (compiled np) [] = false) patterns.
Proof.
  unfold patterns.
  repeat (apply Forall_cons; [vm_compute; reflexivity|]).
  apply Forall_nil.
Qed.

Lemma scan_loop_none (rt : runtime) (l : list (text * pattern)) :
  Forall (plain_entry rt) l ->
  scan_loop rt l None = match l with [] => Ok [] | _ => Raise TypeError end.
Proof.
  destruct 1 as [|[name p] l [Hc _] _]; simpl; [reflexivity|].
  simpl in Hc. now rewrite Hc.
Qed.

(** C4, as stated, fails for None: with the default configuration the
    scanner raises TypeError instead of returning an empty list. *)
Lemma C4_counterexample : _scan_text rt0 default_valves None <> Ok [].
Proof. vm_compute. discriminate. Qed.

(** C4, amended: without custom patterns, scanning the empty text
    returns the empty list of findings and raises nothing, whatever the
    toggles; None in place of a text raises TypeError as soon as one
    detector is enabled (and returns the empty list when none is). *)
Theorem C4_scan_empty_text :
  forall (rt : runtime) (v : Valves),
    custom_patterns v = txt "{}" ->
    _scan_text rt v (Some []) = Ok []
    /\ _scan_text rt v None
       = if existsb (toggled_on v) patterns then Raise TypeError else Ok [].
Proof.
  intros rt v Hc. unfold _scan_text.
  rewrite (active_builtin_only rt v Hc). cbn [bind]. split.
  - rewrite scan_loop_plain by apply active_plain.
    rewrite filter_none; [reflexivity|].
    apply Forall_filter_keep, builtin_silent_on_empty.
  - rewrite scan_loop_none by apply active_plain.
    generalize patterns. intros l.
    induction l as [|np l IH]; simpl; [reflexivity|].
    destruct (toggled_on v np); simpl; [reflexivity|exact IH].
Qed.

Lemma C4_witness :
  custom_patterns default_valves = txt "{}"
  /\ _scan_text rt0 default_valves (Some []) = Ok []
  /\ _scan_text rt0 default_valves None = Raise TypeError.
Proof.
  split; [reflexivity|].
  exact (C4_scan_empty_text rt0 default_valves eq_refl).
Defined.

(** ** An invalid custom pattern *)

(* malformed JSON: the custom set is empty and nothing is raised *)
Lemma malformed_json_is_ignored (rt : runtime) (v : Valves) :
  json_loads rt (custom_patterns v) = Raise JSONDecodeError ->
  _get_active_patterns rt v = Ok (filter (toggled_on v) patterns).
Proof. intros H. unfold _get_active_patterns. now rewrite H. Qed.

Lemma scan_loop_raise (rt : runtime) (l : list (text * pattern))
      (bad : text * pattern) (e : exn) (t : text) :
  Forall (plain_entry rt) l ->
  compile_value rt (regex (snd bad)) = Raise e ->
  scan_loop rt (l ++ [bad]) (Some t) = Raise e.
Proof.
  intros Hl Hbad.
  induction Hl as [|[name p] l [Hc _] _ IH]; simpl.
  - destruct bad as [n b]. simpl in *. now rewrite Hbad.
  - simpl in Hc. rewrite Hc. simpl. now rewrite IH.
Qed.

(** C3, at the failing input: with the custom-pattern mapping
    {"bad": "("} (well-formed JSON, ill-formed pattern) the scanner
    raises re.error on every text, and so does the inbound hook on every
    user message; nothing ignores the entry. *)
Theorem C3_invalid_custom_pattern_is_fatal :
  forall (rt : runtime) (t : text),
    rt_compile rt (txt "(") = Raise ReError ->
    _scan_text rt bad_custom_valves (Some t) = Raise ReError
    /\ inlet rt bad_custom_valves (user_says t) = Raise ReError.
Proof.
  intros rt t Hbad.
  assert (Hscan : forall t', _scan_text rt bad_custom_valves (Some t') = Raise ReError).
  { intros t'. unfold _scan_text.
    replace (_get_active_patterns rt bad_custom_valves)
      with (Ok (patterns ++ [custom_entry (txt "bad") (JStr (txt "("))]))
      by (vm_compute; reflexivity).
    cbn [bind]. apply scan_loop_raise; [apply patterns_plain|].
    simpl. unfold re_compile. simpl. exact Hbad. }
  split; [apply Hscan|].
  unfold inlet, user_says. cbn [enabled bad_custom_valves with_custom default_valves negb get messages map].
  cbn [scan_messages].
  replace (is_user (sanitize_message rt {| role := Some (txt "user"); content := CStr t |})) with true.
  - rewrite Hscan. reflexivity.
  - unfold sanitize_message. cbn [content]. destruct (is_blank _ t); reflexivity.
Qed.

Lemma C3_witness :
  rt_compile rt0 (txt "(") = Raise ReError
  /\ _scan_text rt0 bad_custom_valves (Some (txt "hello")) = Raise ReError
  /\ inlet rt0 bad_custom_valves (user_says (txt "hello")) = Raise ReError.
Proof.
  split; [reflexivity|].
  exact (C3_invalid_custom_pattern_is_fatal rt0 (txt "hello") eq_refl).
Defined.

(** ** An unrecognised mode *)

(** C8: with the filter enabled and a mode that is neither "block" nor
    "redact", the hook returns the request with only the empty-content
    normalisation applied: nothing is blocked, no text is redacted, the
    file lists are untouched, whatever was detected. *)
Theorem C8_unknown_mode_passes_through :
  forall (rt : runtime) (v : Valves) (body : Body) (found : list finding),
    enabled v = true ->
    text_eqb (mode v) (txt "block") = false ->
    text_eqb (mode v) (txt "redact") = false ->
    scan_messages rt v (map (sanitize_message rt) (get (messages body) []))
    = Ok found ->
    inlet rt v body
    = Ok (with_messages body (map (sanitize_message rt) (get (messages body) []))).
Proof.
  intros rt v body found He Hb Hr Hs.
  unfold inlet. rewrite He, Hs. cbn [negb bind]. rewrite Hb, Hr.
  destruct found;
    destruct (if scan_file_uploads v then fst (_scan_files rt v body) else []);
    reflexivity.
Qed.

Lemma C8_witness :
  scan_messages rt0 (with_mode "log" default_valves)
                (map (sanitize_message rt0)
                     (get (messages (user_says ssn_message)) []))
  = Ok [(txt "ssn", txt "Social Security Number", txt "critical")]
  /\ inlet rt0 (with_mode "log" default_valves) (user_says ssn_message)
     = Ok (user_says ssn_message).
Proof.
  split; [vm_compute; reflexivity|].
  exact (@C8_unknown_mode_passes_through rt0 (with_mode "log" default_valves)
           (user_says ssn_message)
           [(txt "ssn", txt "Social Security Number", txt "critical")]
           eq_refl eq_refl eq_refl eq_refl).
Defined.

(** ** Empty-content normalisation *)

Lemma notice_not_blank (X : unicode_ext) : is_blank X NOTICE_EMPTY = false.
Proof. vm_compute. reflexivity. Qed.

Lemma sanitize_item_idem (rt : runtime) (it : Item) :
  sanitize_item rt (sanitize_item rt it) = sanitize_item rt it.
Proof.
  destruct it as [t|tag]; [|reflexivity].
  assert (H : sanitize_item rt (ItemText t)
              = if is_blank (rt_unicode rt) t then ItemText NOTICE_EMPTY
                else ItemText t) by reflexivity.
  rewrite H. destruct (is_blank (rt_unicode rt) t) eqn:Hb.
  - unfold sanitize_item. now rewrite notice_not_blank.
  - unfold sanitize_item. now rewrite Hb.
Qed.

Lemma sanitize_message_idem (rt : runtime) (m : Message) :
  sanitize_message rt (sanitize_message rt m) = sanitize_message rt m.
Proof.
  destruct m as [r [t|items|repr]].
  - assert (H : sanitize_message rt {| role := r; content := CStr t |}
                = if is_blank (rt_unicode rt) t
                  then {| role := r; content := CStr NOTICE_EMPTY |}
                  else {| role := r; content := CStr t |}) by reflexivity.
    destruct (is_blank (rt_unicode rt) t) eqn:Hb; rewrite H.
    + unfold sanitize_message. cbn [content role]. now rewrite notice_not_blank.
    + exact H.
  - unfold sanitize_message. cbn [content role]. rewrite map_map.
    f_equal. f_equal. apply map_ext. intros it. apply sanitize_item_idem.
  - reflexivity.
Qed.

Lemma inlet_sanitized_first (rt : runtime) (v : Valves) (body : Body) (ms : list Message) :
  messages body = Some ms ->
  inlet rt v (with_messages body (map (sanitize_message rt) ms)) = inlet rt v body
  \/ enabled v = false.
Proof.
  intros Hm. destruct (enabled v) eqn:He; [left|right; reflexivity].
  destruct body as [bm bf bmd]. simpl in Hm. subst bm.
  unfold inlet. rewrite He. cbn [negb]. unfold with_messages.
  cbn [messages files metadata get _scan_files].
  rewrite map_map.
  rewrite (map_ext _ (sanitize_message rt)
             (fun m => sanitize_message_idem rt m)).
  reflexivity.
Qed.



(** ** Redaction without flagged files *)

Lemma text_eqb_refl (a : text) : text_eqb a a = true.
Proof. induction a as [|x a IH]; simpl; [reflexivity|]. now rewrite N.eqb_refl. Qed.

Lemma text_eqb_eq (a b : text) : text_eqb a b = true <-> a = b.
Proof.
  split; [|intros ->; apply text_eqb_refl].
  revert b. induction a as [|x a IH]; intros [|y b]; simpl; try discriminate; auto.
  intros H. apply andb_prop in H. destruct H as [H1 H2].
  apply N.eqb_eq in H1. subst. f_equal. auto.
Qed.

Lemma redact_message_role (rt : runtime) (v : Valves) (m m' : Message) :
  redact_message rt v m = Ok m' -> role m' = role m.
Proof.
  unfold redact_message. destruct (negb (is_user m)).
  - now intros [= <-].
  - destruct (content m) as [t|items|repr].
    + destruct (_redact_text rt v t); simpl; [now intros [= <-]|discriminate].
    + destruct (redact_items rt v items); simpl; [now intros [= <-]|discriminate].
    + destruct (_redact_text rt v repr); simpl; [now intros [= <-]|discriminate].
Qed.

Lemma redact_messages_roles (rt : runtime) (v : Valves) (ms : list Message) :
  forall ms', redact_messages rt v ms = Ok ms' -> map role ms' = map role ms.
Proof.
  induction ms as [|m ms IH]; simpl; intros ms'.
  - now intros [= <-].
  - destruct (redact_message rt v m) as [m1|] eqn:Hm; simpl; [|discriminate].
    destruct (redact_messages rt v ms) as [ms1|]; simpl; [|discriminate].
    intros [= <-]. simpl. f_equal; [eapply redact_message_role; eauto|auto].
Qed.

Lemma sanitize_roles (rt : runtime) (ms : list Message) :
  map role (map (sanitize_message rt) ms) = map role ms.
Proof.
  rewrite map_map. apply map_ext. intros [r c]. unfold sanitize_message.
  cbn [content role]. destruct c; [destruct (is_blank _ t)|..]; reflexivity.
Qed.

(** C10: in redact mode, when the message text has findings and no file
    was flagged, the hook returns the request with its messages
    redacted and nothing else changed: the file list and the metadata
    (its file list included) are the ones received, and the messages
    keep their number and roles, so no system notice was appended. *)
Theorem C10_no_flagged_file_no_stripping :
  forall (rt : runtime) (v : Valves) (body : Body) (found : list finding),
    enabled v = true ->
    mode v = txt "redact" ->
    scan_messages rt v (map (sanitize_message rt) (get (messages body) []))
    = Ok found ->
    found <> [] ->
    (if scan_file_uploads v then fst (_scan_files rt v body) else []) = [] ->
    inlet rt v body
    = (msgs' <- redact_messages rt v
                  (map (sanitize_message rt) (get (messages body) [])) ;;
       Ok (with_messages body msgs'))
    /\ forall out : Body,
         inlet rt v body = Ok out ->
         files out = files body
         /\ metadata out = metadata body
         /\ map role (get (messages out) []) = map role (get (messages body) []).
Proof.
  intros rt v body found He Hmode Hs Hne Hf.
  assert (Hin : inlet rt v body
                = (msgs' <- redact_messages rt v
                      (map (sanitize_message rt) (get (messages body) [])) ;;
                   Ok (with_messages body msgs'))).
  { unfold inlet. rewrite He, Hs, Hf, Hmode. cbn [negb bind].
    destruct found as [|f found]; [congruence|].
    replace (text_eqb (txt "redact") (txt "block")) with false by reflexivity.
    replace (text_eqb (txt "redact") (txt "redact")) with true by reflexivity.
    destruct (redact_messages rt v _); reflexivity. }
  split; [exact Hin|].
  intros out Hout. rewrite Hin in Hout.
  destruct (redact_messages rt v _) as [ms'|] eqn:Hr; simpl in Hout; [|discriminate].
  injection Hout as <-. unfold with_messages. cbn [files metadata messages].
  repeat split.
  apply redact_messages_roles in Hr. rewrite sanitize_roles in Hr.
  destruct (messages body); simpl in *; [exact Hr|reflexivity].
Qed.

Lemma C10_witness :
  inlet rt0 (with_mode "redact" default_valves) (user_says ssn_message)
  = Ok (user_says (txt "My SSN is [REDACTED-SSN]")).
Proof.
  refine (eq_trans
            (proj1 (@C10_no_flagged_file_no_stripping rt0
                      (with_mode "redact" default_valves)
                      (user_says ssn_message)
                      [(txt "ssn", txt "Social Security Number", txt "critical")]
                      eq_refl eq_refl eq_refl _ eq_refl))
            eq_refl).
  discriminate.
Defined.

(** ** Oversized files *)

Lemma resolve_only_globs (rt : runtime) (file_id file_name : text) :
  existsb is_extract (snd (_resolve_file_path rt file_id file_name)) = false.
Proof.
  unfold _resolve_file_path.
  destruct (rt_glob rt (glob_first rt file_id) false) as [[|p l]|e]; try reflexivity.
  destruct (rt_glob rt (glob_nested rt file_id) true) as [[|p l]|e]; reflexivity.
Qed.

Lemma scan_files_loop_cons (rt : runtime) (v : Valves) (f : FileRef) (l : list FileRef) :
  fst (scan_files_loop rt v (f :: l))
  = match fst (scan_file rt v f) with Some h => [h] | None => [] end
      ++ fst (scan_files_loop rt v l).
Proof.
  cbn [scan_files_loop].
  destruct (scan_file rt v f) as [[h|] tr], (scan_files_loop rt v l); reflexivity.
Qed.

Lemma scan_files_loop_app (rt : runtime) (v : Valves) (a b : list FileRef) :
  fst (scan_files_loop rt v (a ++ b))
  = fst (scan_files_loop rt v a) ++ fst (scan_files_loop rt v b).
Proof.
  induction a as [|f a IH]; [reflexivity|].
  rewrite <- app_comm_cons, !scan_files_loop_cons, IH. apply app_assoc.
Qed.

(** C5: a file reference that resolves to a file larger than
    max_file_size_mb megabytes is abandoned at the size check: no
    extractor is called for it, it adds nothing to the flagged files,
    and the scan of the whole list is the scan of the list without it,
    whatever the runtime would have extracted from it. *)
Theorem C5_oversized_file_is_skipped :
  forall (rt : runtime) (v : Valves) (ftype fid fname : option text)
         (path : text) (size : Z),
    fst (_resolve_file_path rt (get fid []) (get fname (txt "unknown")))
    = Ok (Some path) ->
    rt_getsize rt path = Ok size ->
    (size > max_file_size_mb v * 1024 * 1024)%Z ->
    fst (scan_file rt v (FileDict ftype fid fname)) = None
    /\ existsb is_extract (snd (scan_file rt v (FileDict ftype fid fname))) = false
    /\ forall before after : list FileRef,
         fst (scan_files_loop rt v (before ++ FileDict ftype fid fname :: after))
         = fst (scan_files_loop rt v (before ++ after)).
Proof.
  intros rt v ftype fid fname path size Hres Hsize Hbig.
  assert (Hskip : fst (scan_file rt v (FileDict ftype fid fname)) = None
                  /\ existsb is_extract (snd (scan_file rt v (FileDict ftype fid fname))) = false).
  { unfold scan_file.
    destruct (negb _); [split; reflexivity|].
    destruct (get fid []) as [|c id] eqn:Hid; [split; reflexivity|].
    pose proof (resolve_only_globs rt (c :: id) (get fname (txt "unknown"))) as Hg.
    destruct (_resolve_file_path rt (c :: id) (get fname (txt "unknown"))) as [o tr].
    simpl in Hres. subst o. simpl in Hg.
    destruct path as [|p path]; [split; [reflexivity|exact Hg]|].
    rewrite Hsize.
    replace (size >? max_file_size_mb v * 1024 * 1024)%Z with true
      by (symmetry; apply Z.gtb_lt; lia).
    split; [reflexivity|].
    cbn [snd]. rewrite existsb_app, Hg. reflexivity. }
  destruct Hskip as [H1 H2]. repeat split; [exact H1|exact H2|].
  intros before after.
  rewrite !scan_files_loop_app, scan_files_loop_cons, H1. reflexivity.
Qed.

Lemma C5_witness :
  fst (scan_file rt_big_file default_valves big_file) = None
  /\ existsb is_extract (snd (scan_file rt_big_file default_valves big_file)) = false
  /\ forall before after : list FileRef,
       fst (scan_files_loop rt_big_file default_valves (before ++ big_file :: after))
       = fst (scan_files_loop rt_big_file default_valves (before ++ after)).
Proof.
  apply (C5_oversized_file_is_skipped rt_big_file default_valves
           (Some (txt "file")) (Some (txt "f1")) (Some (txt "payroll.csv"))
           (txt "/app/backend/data/uploads/f1_payroll.csv")
           (60 * 1024 * 1024)%Z).
  - reflexivity.
  - reflexivity.
  - reflexivity.
Defined.

(* the same reference under the limit is decoded and flagged *)
Example file_under_the_limit_is_scanned :
  let rt := rt_one_file (txt "/app/backend/data/uploads/f1_payroll.csv")
                        (1 * 1024 * 1024) (txt "SSN 123-45-6789") in
  fst (scan_file rt default_valves big_file)
  = Some (txt "payroll.csv",
          [(txt "ssn", txt "Social Security Number", txt "critical");
           (txt "ssn_labeled", txt "Social Security Number (labeled)", txt "critical")])
  /\ existsb is_extract (snd (scan_file rt default_valves big_file)) = true.
Proof. split; vm_compute; reflexivity. Qed.

(** ** The block message *)

Lemma insert_by_In (rank : text -> nat) (x y : text) (l : list text) :
  In y (insert_by rank x l) <-> y = x \/ In y l.
Proof.
  induction l as [|z l IH]; simpl.
  - intuition.
  - destruct (rank x <=? rank z); simpl; [intuition|].
    rewrite IH. intuition.
Qed.


Lemma sorted_In (rank : text -> nat) (y : text) (d : list text) :
  In y (fold_right (insert_by rank) [] d) <-> In y d.
Proof.
  induction d as [|x d IH]; simpl; [reflexivity|].
  rewrite insert_by_In, IH. intuition.
Qed.


Lemma py_set_In (rt : runtime) (l : list text) (y : text) :
  In y (py_set rt l) <-> In y l.
Proof. unfold py_set. rewrite sorted_In. apply nodup_In. Qed.


Lemma occurs_refl (x : text) : occurs x x.
Proof. exists [], []. now rewrite app_nil_r. Qed.

Lemma occurs_app (x s a b : text) : occurs x s -> occurs x (a ++ s ++ b).
Proof.
  intros (pre & post & ->). exists (a ++ pre), (post ++ b).
  now rewrite <- !app_assoc.
Qed.

Lemma occurs_app_l (x s b : text) : occurs x s -> occurs x (s ++ b).
Proof. intros H. apply (occurs_app x s [] b) in H. exact H. Qed.

Lemma occurs_app_r (x s a : text) : occurs x s -> occurs x (a ++ s).
Proof. intros H. apply (occurs_app x s a []) in H. now rewrite app_nil_r in H. Qed.


Lemma join_occurs (sep x : text) (l : list text) :
  In x l -> occurs x (join sep l).
Proof.
  induction l as [|y l IH]; simpl; [intros []|].
  intros [->|Hin].
  - destruct l; [apply occurs_refl|apply occurs_app_l, occurs_refl].
  - destruct l as [|z l]; [destruct Hin|].
    apply occurs_app_r, occurs_app_r, IH, Hin.
Qed.

Section BlockMessage.
Variable rt : runtime.






End BlockMessage.




(** ** The SSN detector *)

Lemma digit_cases (d : N) :
  ascii_isdigit d = true ->
  (d = 48 \/ d = 49 \/ d = 50 \/ d = 51 \/ d = 52
   \/ d = 53 \/ d = 54 \/ d = 55 \/ d = 56 \/ d = 57)%N.
Proof.
  unfold ascii_isdigit, between. intros H.
  apply andb_prop in H. destruct H as [H1 H2].
  apply N.leb_le in H1, H2. lia.
Qed.

Lemma sep_cases (c : N) :
  ssn_separator c = true -> (c = 45 \/ c = 8211 \/ c = 8212 \/ c = 32)%N.
Proof.
  unfold ssn_separator, EN_DASH, EM_DASH.
  rewrite !orb_true_iff, !N.eqb_eq. intuition.
Qed.

Ltac by_cases H :=
  repeat (destruct H as [->|H]; [reflexivity|]); subst; reflexivity.

Section SsnFacts.
Variable X : unicode_ext.

Lemma digit_is_digit d : ascii_isdigit d = true -> is_digit X d = true.
Proof. intros H. apply digit_cases in H. by_cases H. Qed.
Lemma digit_is_word d : ascii_isdigit d = true -> is_word X d = true.
Proof. intros H. apply digit_cases in H. by_cases H. Qed.
Lemma digit_not_sep d : ascii_isdigit d = true -> cls_mem X ssn_sep_items d = false.
Proof. intros H. apply digit_cases in H. by_cases H. Qed.
Lemma sep_is_sep c : ssn_separator c = true -> cls_mem X ssn_sep_items c = true.
Proof. intros H. apply sep_cases in H. by_cases H. Qed.
Lemma sep_not_digit c : ssn_separator c = true -> is_digit X c = false.
Proof. intros H. apply sep_cases in H. by_cases H. Qed.
Lemma sep_not_word c : ssn_separator c = true -> is_word X c = false.
Proof. intros H. apply sep_cases in H. by_cases H. Qed.

Lemma cls_digit c : cls_mem X [IDigit] c = is_digit X c.
Proof. unfold cls_mem. simpl. apply orb_false_r. Qed.
Lemma boundary_some p s :
  at_boundary X (Some p) s = xorb (is_word X p) (word_after X s).
Proof. reflexivity. Qed.
Lemma boundary_cons prev c s :
  at_boundary X prev (c :: s) = xorb (word_before X prev) (is_word X c).
Proof. reflexivity. Qed.
Lemma word_after_cons c s : word_after X (c :: s) = is_word X c.
Proof. reflexivity. Qed.
Lemma word_before_some c : word_before X (Some c) = is_word X c.
Proof. reflexivity. Qed.

Lemma search_from_cons_none r prev c s :
  match_here X r false prev (c :: s) = None ->
  search_from X r prev (c :: s) = search_from X r (Some c) s.
Proof. intros H. cbn [search_from]. now rewrite H. Qed.

Lemma search_from_skip r prev pre s :
  search_from X r (last_char prev pre) s = true ->
  search_from X r prev (pre ++ s) = true.
Proof.
  revert prev. induction pre as [|c pre IH]; intros prev H; [exact H|].
  cbn [app search_from].
  destruct (match_here X r false prev (c :: pre ++ s)); [reflexivity|].
  apply IH, H.
Qed.

Lemma search_from_here r prev s :
  match_here X r false prev s <> None -> search_from X r prev s = true.
Proof.
  intros H. destruct s; cbn [search_from];
    destruct (match_here X r false prev _); congruence.
Qed.
End SsnFacts.

Arguments at_boundary : simpl never.
Arguments is_digit : simpl never.
Arguments is_word : simpl never.
Arguments is_space : simpl never.
Arguments ci_eq : simpl never.
Arguments cls_mem : simpl never.
Arguments word_before : simpl never.
Arguments word_after : simpl never.

(* what is known of a character: from its kind to the tests the engine makes *)
Ltac char_facts X :=
  repeat match goal with
  | H : ascii_isdigit ?d = true |- _ =>
      pose proof (digit_is_digit X d H); pose proof (digit_is_word X d H);
      pose proof (digit_not_sep X d H); clear H
  | H : ssn_separator ?d = true |- _ =>
      pose proof (sep_is_sep X d H); pose proof (sep_not_digit X d H);
      pose proof (sep_not_word X d H); clear H
  end.

(* run the SSN matcher on a text whose characters are known by their kind *)
Ltac ssn_eval X :=
  unfold match_here, re_ssn; fold ssn_sep_items;
  repeat (cbn;
          rewrite ?cls_digit, ?boundary_cons, ?boundary_some, ?word_after_cons,
                  ?word_before_some;
          match goal with
          | |- ?x = ?x => reflexivity
          | |- Some _ <> None => discriminate
          | H : ?t = true |- context [?t] => rewrite H
          | H : ?t = false |- context [?t] => rewrite H
          | |- context [?n <=? ?n] => rewrite Nat.leb_refl
          | |- context [word_before X ?p] => destruct (word_before X p)
          | |- context [cls_mem X ssn_sep_items ?c] =>
              destruct (cls_mem X ssn_sep_items c)
          | |- context [is_word X ?c] => destruct (is_word X c)
          | |- context [at_boundary X ?p ?s] => destruct (at_boundary X p s)
          end).

Section SsnSearch.
Variable X : unicode_ext.

Lemma ssn_needs_digit adv prev c s :
  is_digit X c = false -> match_here X re_ssn adv prev (c :: s) = None.
Proof. intros H. ssn_eval X. Qed.

Lemma ssn_not_at_end adv prev : match_here X re_ssn adv prev [] = None.
Proof. ssn_eval X. Qed.

Lemma ssn_search_nondigits prev s :
  Forall (nondigit X) s -> search_from X re_ssn prev s = false.
Proof.
  intros H. revert prev. induction H as [|c s Hc _ IH]; intros prev.
  - cbn [search_from]. now rewrite ssn_not_at_end.
  - rewrite search_from_cons_none by (apply ssn_needs_digit, Hc). apply IH.
Qed.

Lemma ssn_search_skip prev pre s :
  Forall (nondigit X) pre ->
  search_from X re_ssn prev (pre ++ s) = search_from X re_ssn (last_char prev pre) s.
Proof.
  intros H. revert prev. induction H as [|c pre Hc _ IH]; intros prev; [reflexivity|].
  cbn [app]. rewrite search_from_cons_none by (apply ssn_needs_digit, Hc). apply IH.
Qed.

Lemma ssn_found (pre post : text) (d1 d2 d3 s1 d4 d5 s2 d6 d7 d8 d9 : N) :
  ascii_isdigit d1 = true -> ascii_isdigit d2 = true -> ascii_isdigit d3 = true ->
  ascii_isdigit d4 = true -> ascii_isdigit d5 = true -> ascii_isdigit d6 = true ->
  ascii_isdigit d7 = true -> ascii_isdigit d8 = true -> ascii_isdigit d9 = true ->
  ssn_separator s1 = true -> ssn_separator s2 = true ->
  word_before X (last_char None pre) = false ->
  word_after X post = false ->
  re_search X re_ssn
            (pre ++ [d1; d2; d3] ++ [s1] ++ [d4; d5] ++ [s2] ++ [d6; d7; d8; d9] ++ post)
  = true.
Proof.
  intros. char_facts X. unfold re_search.
  apply search_from_skip, search_from_here. cbn [app].
  ssn_eval X.
Qed.

Lemma ssn_near_miss (pre post g1 g2 g3 : text) (s1 s2 : N) :
  near_miss (length g1) (length g2) (length g3) ->
  Forall (fun d => ascii_isdigit d = true) (g1 ++ g2 ++ g3) ->
  ssn_separator s1 = true -> ssn_separator s2 = true ->
  Forall (nondigit X) pre -> Forall (nondigit X) post ->
  re_search X re_ssn (pre ++ g1 ++ [s1] ++ g2 ++ [s2] ++ g3 ++ post) = false.
Proof.
  intros Hshape Hd Hs1 Hs2 Hpre Hpost.
  unfold re_search. rewrite ssn_search_skip by exact Hpre.
  generalize (last_char None pre). intros prev.
  unfold near_miss in Hshape. simpl in Hshape.
  repeat (destruct Hshape as [Hshape|Hshape]); try contradiction;
    injection Hshape as H1 H2 H3;
    repeat (let d := fresh "d" in destruct g1 as [|d g1]; try discriminate);
    repeat (let d := fresh "d" in destruct g2 as [|d g2]; try discriminate);
    repeat (let d := fresh "d" in destruct g3 as [|d g3]; try discriminate);
    cbn [app] in *;
    repeat match goal with
           | H : Forall _ (_ :: _) |- _ => inversion H; clear H; subst
           end;
    char_facts X;
    destruct Hpost as [|p post1 Hp [|q post2 Hq Hrest]];
    unfold nondigit in *;
    repeat (rewrite search_from_cons_none by ssn_eval X);
    apply ssn_search_nondigits; first [apply Forall_nil | assumption].
Qed.
End SsnSearch.

(** ** What the scanner reports for a built-in detector *)

Lemma starts_with_app (p n : text) : starts_with p (p ++ n) = true.
Proof.
  induction p as [|x p IH]; simpl; [reflexivity|]. now rewrite N.eqb_refl.
Qed.

Lemma dict_set_other {V : Type} (k k' : text) (v p : V) (d : list (text * V)) :
  k <> k' -> In (k', p) (dict_set k v d) <-> In (k', p) d.
Proof.
  intros Hne. induction d as [|[k0 v0] d IH]; simpl.
  - split; [intros [[= H _]|[]]; congruence|intros []].
  - destruct (text_eqb k k0) eqn:Hk.
    + apply text_eqb_eq in Hk. subst k0. simpl.
      split; intros [[= H _]|H]; try congruence; now right.
    + simpl. rewrite IH. reflexivity.
Qed.

Section ScanFacts.
Variable rt : runtime.
Let X := rt_unicode rt.

Lemma custom_keeps_builtin (name : text) (p : pattern)
      (items : list (text * json)) (base : list (text * pattern)) :
  starts_with (txt "custom_") name = false ->
  In (name, p)
     (fold_left (fun act kv =>
                   let e := custom_entry (fst kv) (snd kv) in
                   dict_set (fst e) (snd e) act) items base)
  <-> In (name, p) base.
Proof.
  intros Hn. revert base. induction items as [|[k j] items IH]; intros base.
  - reflexivity.
  - cbn [fold_left]. rewrite IH. apply dict_set_other.
    cbn [custom_entry fst]. intros <-.
    now rewrite starts_with_app in Hn.
Qed.

Lemma active_builtin (v : Valves) (active : list (text * pattern))
      (name : text) (p : pattern) :
  starts_with (txt "custom_") name = false ->
  _get_active_patterns rt v = Ok active ->
  In (name, p) active <-> In (name, p) patterns /\ toggled_on v (name, p) = true.
Proof.
  intros Hn Ha. rewrite <- filter_In.
  unfold _get_active_patterns in Ha.
  remember (filter (toggled_on v) patterns) as base eqn:Hbase. clear Hbase.
  destruct (json_loads rt (custom_patterns v)) as [[| | | | |members]|e];
    try discriminate.
  - injection Ha as Ha. rewrite <- Ha. apply custom_keeps_builtin. exact Hn.
  - destruct e; try discriminate; injection Ha as Ha; rewrite Ha; reflexivity.
Qed.

Lemma scan_loop_sound (l : list (text * pattern)) (t : text) :
  forall ds, scan_loop rt l (Some t) = Ok ds ->
  forall f, In f ds ->
  exists name p r,
    In (name, p) l /\ compile_value rt (regex p) = Ok r
    /\ re_search X r t = true /\ f = (name, description p, severity p).
Proof.
  induction l as [|[name p] l IH]; cbn [scan_loop]; intros ds.
  - intros [= <-] f [].
  - destruct (compile_value rt (regex p)) as [r|] eqn:Hc; cbn [bind]; [|discriminate].
    destruct (scan_loop rt l (Some t)) as [ds'|]; cbn [bind]; [|discriminate].
    intros [= <-] f Hf.
    assert (Hrest : In f ds' ->
                    exists name0 p0 r0,
                      In (name0, p0) ((name, p) :: l)
                      /\ compile_value rt (regex p0) = Ok r0
                      /\ re_search X r0 t = true
                      /\ f = (name0, description p0, severity p0)).
    { intros H. destruct (IH ds' eq_refl f H) as (n0 & p0 & r0 & Hin & H0).
      exists n0, p0, r0. split; [now right|exact H0]. }
    fold X in Hf. destruct (re_search X r t) eqn:Hs; [|auto].
    destruct Hf as [<-|Hf]; [|auto].
    exists name, p, r. repeat split; [now left|exact Hc|exact Hs].
Qed.

Lemma scan_loop_complete (l : list (text * pattern)) (t : text) :
  forall ds, scan_loop rt l (Some t) = Ok ds ->
  forall name p r,
    In (name, p) l -> compile_value rt (regex p) = Ok r ->
    re_search X r t = true ->
    In (name, description p, severity p) ds.
Proof.
  induction l as [|[name0 p0] l IH]; cbn [scan_loop]; intros ds.
  - intros _ name p r [].
  - destruct (compile_value rt (regex p0)) as [r0|] eqn:Hc; cbn [bind]; [|discriminate].
    destruct (scan_loop rt l (Some t)) as [ds'|]; cbn [bind]; [|discriminate].
    intros [= <-] name p r Hin Hcp Hs. fold X.
    destruct Hin as [[= -> ->]|Hin].
    + rewrite Hc in Hcp. injection Hcp as ->. rewrite Hs. now left.
    + specialize (IH ds' eq_refl name p r Hin Hcp Hs).
      destruct (re_search X r0 t); [now right|exact IH].
Qed.

Lemma ssn_entry_compiles (p : pattern) :
  In (txt "ssn", p) patterns ->
  compile_value rt (regex p) = Ok re_ssn
  /\ toggled_on default_valves (txt "ssn", p) = true
  /\ forall v, toggled_on v (txt "ssn", p) = block_ssn v.
Proof.
  assert (H : Forall (fun np => fst np = txt "ssn" ->
                       compile_value rt (regex (snd np)) = Ok re_ssn
                       /\ toggled_on default_valves np = true
                       /\ forall v, toggled_on v np = block_ssn v) patterns).
  { unfold patterns.
    repeat (apply Forall_cons;
            [intros Hn;
             first [ vm_compute in Hn; discriminate Hn
                   | repeat split ] |]).
    apply Forall_nil. }
  rewrite Forall_forall in H. intros Hin. apply (H _ Hin). reflexivity.
Qed.

Lemma ssn_is_registered :
  exists p, In (txt "ssn", p) patterns.
Proof. eexists. unfold patterns. left. reflexivity. Qed.

(** The scanner reports [ssn] exactly when the toggle is on and the SSN
    pattern matches somewhere in the text. *)
Lemma scan_reports_ssn (v : Valves) (t : text) (ds : list finding) :
  _scan_text rt v (Some t) = Ok ds ->
  (reports (txt "ssn") ds <-> block_ssn v = true /\ re_search X re_ssn t = true).
Proof.
  unfold _scan_text.
  destruct (_get_active_patterns rt v) as [active|] eqn:Ha; cbn [bind]; [|discriminate].
  intros Hs. split.
  - intros ([[name d] sev] & Hf & Hname). cbn in Hname. subst name.
    destruct (scan_loop_sound _ _ _ Hs _ Hf) as (n & p & r & Hin & Hc & Hm & Heq).
    injection Heq as <- _ _.
    apply (active_builtin v active (txt "ssn") p eq_refl Ha) in Hin.
    destruct Hin as [Hin Hon].
    destruct (ssn_entry_compiles p Hin) as (Hc' & _ & Hv).
    rewrite Hc' in Hc. injection Hc as <-. rewrite Hv in Hon. now split.
  - intros [Hon Hm]. destruct ssn_is_registered as [p Hin].
    destruct (ssn_entry_compiles p Hin) as (Hc & _ & Hv).
    exists (txt "ssn", description p, severity p). split; [|reflexivity].
    apply (scan_loop_complete _ _ _ Hs (txt "ssn") p re_ssn); [|exact Hc|exact Hm].
    apply (active_builtin v active (txt "ssn") p eq_refl Ha).
    split; [exact Hin|now rewrite Hv].
Qed.

Lemma scan_returns_without_custom (v : Valves) (t : text) :
  custom_patterns v = txt "{}" -> exists ds, _scan_text rt v (Some t) = Ok ds.
Proof.
  intros Hc. unfold _scan_text. rewrite (active_builtin_only rt v Hc). cbn [bind].
  rewrite scan_loop_plain by apply active_plain. eexists. reflexivity.
Qed.
End ScanFacts.

(** C2, as stated, fails on its first half: the text "A123-45-6789"
    contains a 9-digit SSN in the 3-2-4 shape, and the default scanner
    returns no finding at all for it. *)
Lemma C2_counterexample :
  _scan_text rt0 default_valves (Some (txt "A123-45-6789")) = Ok [].
Proof. vm_compute. reflexivity. Qed.

(** C2, amended: with the SSN toggle on, a text containing nine ASCII
    digits grouped 3-2-4, each group separated by a hyphen, an en dash,
    an em dash or a space, gets an [ssn] finding provided no word
    character (letter, digit, underscore) stands directly before or
    after the candidate; and a text whose only digits are such a
    candidate with one group one digit short or long (8 or 10 digits)
    gets none.  The scan itself returns whenever no custom pattern is
    configured. *)
Theorem C2_ssn_detection :
  forall (rt : runtime) (v : Valves) (pre post g1 g2 g3 : text) (s1 s2 : N),
    block_ssn v = true ->
    Forall (fun d => ascii_isdigit d = true) (g1 ++ g2 ++ g3) ->
    ssn_separator s1 = true -> ssn_separator s2 = true ->
    let X := rt_unicode rt in
    let t := pre ++ g1 ++ [s1] ++ g2 ++ [s2] ++ g3 ++ post in
    (custom_patterns v = txt "{}" -> exists ds, _scan_text rt v (Some t) = Ok ds)
    /\ forall ds,
         _scan_text rt v (Some t) = Ok ds ->
         ((length g1, length g2, length g3) = (3, 2, 4) ->
          word_before X (last_char None pre) = false ->
          word_after X post = false ->
          reports (txt "ssn") ds)
         /\ (near_miss (length g1) (length g2) (length g3) ->
             Forall (nondigit X) pre -> Forall (nondigit X) post ->
             ~ reports (txt "ssn") ds).
Proof.
  intros rt v pre post g1 g2 g3 s1 s2 Hon Hd Hs1 Hs2 X t.
  split; [apply scan_returns_without_custom|].
  intros ds Hscan. pose proof (scan_reports_ssn rt v t ds Hscan) as Hrep.
  fold X in Hrep. split.
  - intros [= H1 H2 H3] Hb Ha. apply Hrep. split; [exact Hon|].
    destruct g1 as [|d1 [|d2 [|d3 [|]]]]; try discriminate.
    destruct g2 as [|d4 [|d5 [|]]]; try discriminate.
    destruct g3 as [|d6 [|d7 [|d8 [|d9 [|]]]]]; try discriminate.
    cbn [app] in Hd.
    repeat match goal with
           | H : Forall _ (_ :: _) |- _ => inversion H; clear H; subst
           end.
    apply ssn_found; assumption.
  - intros Hshape Hpre Hpost Hr. apply Hrep in Hr. destruct Hr as [_ Hr].
    subst t. rewrite ssn_near_miss in Hr by assumption. discriminate.
Qed.

Lemma C2_witness :
  reports (txt "ssn") [(txt "ssn", txt "Social Security Number", txt "critical")]
  /\ ~ reports (txt "ssn") [].
Proof.
  split.
  - refine (proj1 (proj2 (C2_ssn_detection rt0 default_valves
                     (txt "id ") (txt ".") (txt "123") (txt "45") (txt "6789")
                     45%N 8211%N eq_refl _ eq_refl eq_refl) _ _)
                  eq_refl eq_refl eq_refl).
    + repeat constructor.
    + vm_compute. reflexivity.
  - refine (proj2 (proj2 (C2_ssn_detection rt0 default_valves
                     (txt "no. ") (txt " ok") (txt "123") (txt "45") (txt "678")
                     45%N 32%N eq_refl _ eq_refl eq_refl) _ _) _ _ _).
    + repeat constructor.
    + vm_compute. reflexivity.
    + unfold near_miss. simpl. auto.
    + repeat constructor.
    + repeat constructor.
Defined.


(** ** The engine calls its continuation on suffixes, and monotonically *)

Section EngineFacts.
Variable X : unicode_ext.
Variable A : Type.

Lemma rep_loop_mono (body : option N -> text -> cont A -> option A)
      (greedy : bool) (k k' : cont A) :
  (forall prev s k1 k2, weaker k1 k2 -> body prev s k1 = None -> body prev s k2 = None) ->
  weaker k k' ->
  forall fuel lo hi prev s,
    rep_loop body greedy k fuel lo hi prev s = None ->
    rep_loop body greedy k' fuel lo hi prev s = None.
Proof.
  intros Hbody Hk. induction fuel as [|fuel IH]; intros lo hi prev s; cbn [rep_loop];
    [reflexivity|].
  destruct lo as [|lo].
  - destruct (hi_is_zero hi); [apply Hk|].
    set (again := fun p s' => if length s' <? length s
                              then rep_loop body greedy k fuel 0 (hi_pred hi) p s'
                              else k p s').
    set (again' := fun p s' => if length s' <? length s
                               then rep_loop body greedy k' fuel 0 (hi_pred hi) p s'
                               else k' p s').
    assert (Hagain : weaker again again').
    { intros p s'. unfold again, again'.
      destruct (length s' <? length s); [apply IH|apply Hk]. }
    destruct greedy.
    + destruct (body prev s again) eqn:Hb; [discriminate|].
      intros Hks. rewrite (Hbody _ _ _ _ Hagain Hb). apply Hk, Hks.
    + destruct (k prev s) eqn:Hks; [discriminate|].
      intros Hb. rewrite (Hk _ _ Hks). apply (Hbody _ _ _ _ Hagain Hb).
  - apply Hbody. intros p s'. apply IH.
Qed.

Lemma run_mono (r : re_pattern) :
  forall prev s (k k' : cont A),
    weaker k k' -> run X r prev s k = None -> run X r prev s k' = None.
Proof.
  induction r as [| c | | neg items | | | | | r1 IH1 r2 IH2 | r1 IH1 r2 IH2
                 | greedy lo hi r IH];
    intros prev s k k' Hk; cbn [run].
  - apply Hk.
  - destruct s as [|x s]; [reflexivity|]. destruct (ci_eq X c x); [apply Hk|reflexivity].
  - destruct s as [|x s]; [reflexivity|]. destruct (x =? 10)%N; [reflexivity|apply Hk].
  - destruct s as [|x s]; [reflexivity|].
    destruct (xorb neg (cls_mem X items x)); [apply Hk|reflexivity].
  - destruct (at_boundary X prev s); [apply Hk|reflexivity].
  - destruct (at_boundary X prev s); [reflexivity|apply Hk].
  - destruct prev; [reflexivity|apply Hk].
  - destruct s as [|c [|d s]]; [apply Hk| |reflexivity].
    destruct (c =? 10)%N; [apply Hk|reflexivity].
  - apply IH1. intros p s'. apply IH2, Hk.
  - destruct (run X r1 prev s k) eqn:H1; [discriminate|].
    intros H2. rewrite (IH1 _ _ _ _ Hk H1). apply (IH2 _ _ _ _ Hk H2).
  - apply rep_loop_mono; [exact IH|exact Hk].
Qed.

Lemma reaches_step (s s1 : text) (k : cont A) (a : A) :
  length s1 <= length s -> reaches s1 k a -> reaches s k a.
Proof.
  intros Hle (p & s' & Hlen & Hk). exists p, s'. split; [lia|exact Hk].
Qed.

Lemma rep_loop_reaches (body : option N -> text -> cont A -> option A)
      (greedy : bool) (k : cont A) :
  (forall prev s k1 a, body prev s k1 = Some a -> reaches s k1 a) ->
  forall fuel lo hi prev s a,
    rep_loop body greedy k fuel lo hi prev s = Some a -> reaches s k a.
Proof.
  intros Hbody. induction fuel as [|fuel IH]; intros lo hi prev s a; cbn [rep_loop];
    [discriminate|].
  assert (Hstop : k prev s = Some a -> reaches s k a).
  { intros H. exists prev, s. split; [lia|exact H]. }
  destruct lo as [|lo].
  - destruct (hi_is_zero hi); [exact Hstop|].
    set (again := fun p s' => if length s' <? length s
                              then rep_loop body greedy k fuel 0 (hi_pred hi) p s'
                              else k p s').
    assert (Hagain : body prev s again = Some a -> reaches s k a).
    { intros H. apply Hbody in H. destruct H as (p & s' & Hlen & H).
      unfold again in H. destruct (length s' <? length s).
      - apply IH in H. apply (reaches_step s s'); assumption.
      - exists p, s'. split; assumption. }
    destruct greedy.
    + destruct (body prev s again) eqn:Hb.
      * intros [= ->]. apply Hagain. reflexivity.
      * exact Hstop.
    + destruct (k prev s) eqn:Hks.
      * intros [= ->]. apply Hstop. reflexivity.
      * exact Hagain.
  - intros H. apply Hbody in H. destruct H as (p & s' & Hlen & H).
    apply IH in H. apply (reaches_step s s'); assumption.
Qed.

Lemma run_reaches (r : re_pattern) :
  forall prev s (k : cont A) a, run X r prev s k = Some a -> reaches s k a.
Proof.
  induction r as [| c | | neg items | | | | | r1 IH1 r2 IH2 | r1 IH1 r2 IH2
                 | greedy lo hi r IH];
    intros prev s k a; cbn [run];
    try (assert (Hhere : k prev s = Some a -> reaches s k a)
          by (intros H; exists prev, s; split; [lia|exact H])).
  - exact Hhere.
  - destruct s as [|x s]; [discriminate|]. destruct (ci_eq X c x); [|discriminate].
    intros H. exists (Some x), s. split; [simpl; lia|exact H].
  - destruct s as [|x s]; [discriminate|]. destruct (x =? 10)%N; [discriminate|].
    intros H. exists (Some x), s. split; [simpl; lia|exact H].
  - destruct s as [|x s]; [discriminate|].
    destruct (xorb neg (cls_mem X items x)); [|discriminate].
    intros H. exists (Some x), s. split; [simpl; lia|exact H].
  - destruct (at_boundary X prev s); [exact Hhere|discriminate].
  - destruct (at_boundary X prev s); [discriminate|exact Hhere].
  - destruct prev; [discriminate|exact Hhere].
  - destruct s as [|c [|d s]]; [exact Hhere| |discriminate].
    destruct (c =? 10)%N; [exact Hhere|discriminate].
  - intros H. apply IH1 in H. destruct H as (p & s' & Hlen & H).
    apply IH2 in H. apply (reaches_step s s'); assumption.
  - destruct (run X r1 prev s k) eqn:H1.
    + intros [= ->]. apply (IH1 _ _ _ _ H1).
    + apply IH2.
  - apply rep_loop_reaches. exact IH.
Qed.
End EngineFacts.

Section SubFacts.
Variable X : unicode_ext.

Lemma match_here_span (r : re_pattern) (adv : bool) (prev : option N) (s : text) (n : nat) :
  match_here X r adv prev s = Some n ->
  n <= length s /\ (adv = true -> 0 < n).
Proof.
  unfold match_here. intros H. apply run_reaches in H.
  destruct H as (p & s' & Hlen & H).
  destruct adv; cbn [andb] in H.
  - destruct (length s' =? length s) eqn:He; [discriminate|].
    apply Nat.eqb_neq in He. injection H as <-. split; [lia|intros _; lia].
  - injection H as <-. split; [lia|discriminate].
Qed.

Lemma match_here_must_advance (r : re_pattern) (prev : option N) (s : text) :
  match_here X r false prev s = None -> match_here X r true prev s = None.
Proof.
  unfold match_here. apply run_mono. intros p s'. discriminate.
Qed.

Lemma last_char_app (prev : option N) (a b : text) :
  last_char (last_char prev a) b = last_char prev (a ++ b).
Proof. unfold last_char. now rewrite fold_left_app. Qed.

(** The pieces of a scan spell the scanned text: the fuel suffices. *)
Lemma re_scan_spells (r : re_pattern) :
  forall fuel (adv : bool) prev s,
    2 * length s + (if adv then 1 else 2) <= fuel ->
    concat (map piece_in (re_scan X fuel r adv prev s)) = s.
Proof.
  induction fuel as [|fuel IH]; intros adv prev s Hfuel.
  - destruct adv; lia.
  - cbn [re_scan]. destruct (match_here X r adv prev s) as [n|] eqn:Hm.
    + apply match_here_span in Hm. destruct Hm as [Hn Hadv].
      cbn [map concat piece_in]. rewrite IH; [apply firstn_skipn|].
      rewrite length_skipn. destruct n as [|n]; cbn [Nat.eqb].
      * destruct adv; [specialize (Hadv eq_refl)|]; lia.
      * destruct adv; lia.
    + destruct s as [|c s]; [reflexivity|].
      cbn [map concat piece_in app]. f_equal. apply IH.
      cbn [length] in Hfuel. destruct adv; lia.
Qed.

Lemma re_pieces_spell (r : re_pattern) (s : text) :
  concat (map piece_in (re_pieces X r s)) = s.
Proof. apply re_scan_spells. unfold scan_fuel. lia. Qed.

(** No non-empty match starts at a character the scan keeps. *)
Lemma re_scan_kept (r : re_pattern) :
  forall fuel adv prev s a c b,
    s = a ++ c :: b ->
    is_kept (re_scan X fuel r adv prev s) (length a) = true ->
    match_here X r true (last_char prev a) (c :: b) = None.
Proof.
  induction fuel as [|fuel IH]; intros adv prev s a c b Hs; cbn [re_scan is_kept];
    [discriminate|].
  destruct (match_here X r adv prev s) as [n|] eqn:Hm.
  - cbn [is_kept]. destruct (length a <? length (firstn n s)) eqn:Hlt; [discriminate|].
    apply Nat.ltb_ge in Hlt.
    assert (Hs_len : length s = length a + S (length b))
      by (rewrite Hs, length_app; reflexivity).
    rewrite length_firstn in Hlt.
    assert (Hn : n <= length a) by lia.
    rewrite length_firstn, Nat.min_l by lia.
    assert (Hfirst : firstn n s = firstn n a).
    { rewrite Hs, firstn_app. replace (n - length a) with 0 by lia.
      cbn [firstn]. apply app_nil_r. }
    assert (Hskip : skipn n s = skipn n a ++ c :: b).
    { rewrite Hs, skipn_app. replace (n - length a) with 0 by lia. reflexivity. }
    intros Hk. rewrite Hfirst in Hk.
    replace (length a - n) with (length (skipn n a)) in Hk by apply length_skipn.
    specialize (IH _ _ _ _ _ _ Hskip Hk).
    rewrite last_char_app, firstn_skipn in IH. exact IH.
  - destruct s as [|x s]; [destruct a; discriminate|].
    cbn [is_kept]. destruct a as [|y a]; cbn [length app] in *.
    + injection Hs as -> ->. intros _. cbn [last_char fold_left].
      destruct adv; [exact Hm|apply match_here_must_advance, Hm].
    + injection Hs as -> Hs. intros Hk.
      apply (IH _ _ _ _ _ _ Hs Hk).
Qed.

Lemma re_pieces_kept (r : re_pattern) (s a b : text) (c : N) :
  s = a ++ c :: b ->
  is_kept (re_pieces X r s) (length a) = true ->
  match_here X r true (last_char None a) (c :: b) = None.
Proof. apply re_scan_kept. Qed.
End SubFacts.

(** ** The redactor, pass by pass *)

Lemma redact_loop_app (rt : runtime) (before l : list (text * pattern)) (t : text) :
  redact_loop rt (before ++ l) t
  = (t1 <- redact_loop rt before t ;; redact_loop rt l t1).
Proof.
  revert t. induction before as [|np before IH]; intros t; [reflexivity|].
  cbn [app redact_loop]. destruct (redact_step rt np t) as [t'|e]; cbn [bind];
    [apply IH|reflexivity].
Qed.

(** C1, as stated, fails: with the default detectors the text
    "123-45-6789 ssn 123456789123456789" makes the [ssn] detector fire,
    and its redaction "[REDACTED-SSN] [REDACTED-SSN_LABELED]123456789"
    still contains a substring matching the [ssn] pattern (the nine
    digits left behind by the later [ssn_labeled] pass, now preceded by
    a bracket instead of a digit). *)
Lemma C1_counterexample :
  _get_active_patterns rt0 default_valves = Ok patterns
  /\ In ssn_entry patterns
  /\ compile_value rt0 (regex (snd ssn_entry)) = Ok re_ssn
  /\ re_search X0 re_ssn leak_text = true
  /\ _redact_text rt0 default_valves leak_text = Ok leak_redacted
  /\ re_search X0 re_ssn leak_redacted = true.
Proof.
  split; [reflexivity|]. split; [left; reflexivity|].
  repeat split; vm_compute; reflexivity.
Qed.

(** C1, amended: whenever the redactor returns, each active detector in
    registry order was applied once to the text the previous detectors
    produced, and its pass leaves no match behind in the text it was
    given: the pieces of the pass spell that text, every piece that is a
    match is replaced by the detector's placeholder, and no non-empty
    match of the detector starts at a character the pass keeps.  Nothing
    is claimed of the final output, which placeholders and later passes
    can make match again. *)
Theorem C1_each_pass_replaces_its_matches :
  forall (rt : runtime) (v : Valves) (t out : text)
         (active before after : list (text * pattern)) (np : text * pattern),
    _get_active_patterns rt v = Ok active ->
    _redact_text rt v t = Ok out ->
    active = before ++ np :: after ->
    exists (t_in t_out : text) (r : re_pattern) (repl : text -> text),
      redact_loop rt before t = Ok t_in
      /\ compile_value rt (regex (snd np)) = Ok r
      /\ re_template rt (placeholder rt (fst np)) = Ok repl
      /\ redact_step rt np t_in = Ok t_out
      /\ redact_loop rt after t_out = Ok out
      /\ pass_replaces_matches (rt_unicode rt) r repl t_in t_out.
Proof.
  intros rt v t out active before after np Hact Hred ->.
  unfold _redact_text in Hred. rewrite Hact in Hred. cbn [bind] in Hred.
  rewrite redact_loop_app in Hred.
  destruct (redact_loop rt before t) as [t_in|] eqn:Hb; [|discriminate].
  cbn [bind redact_loop] in Hred.
  destruct (redact_step rt np t_in) as [t_out|] eqn:Hstep; [|discriminate].
  cbn [bind] in Hred.
  pose proof Hstep as Hstep'. unfold redact_step in Hstep'.
  destruct (compile_value rt (regex (snd np))) as [r|] eqn:Hc; [|discriminate].
  cbn [bind] in Hstep'.
  destruct (re_template rt (placeholder rt (fst np))) as [repl|] eqn:Ht; [|discriminate].
  cbn [bind] in Hstep'. injection Hstep' as <-.
  exists t_in, (re_sub (rt_unicode rt) r repl t_in), r, repl.
  repeat split; try assumption; try reflexivity.
  - apply re_pieces_spell.
  - intros a b c. apply re_pieces_kept.
Qed.

Lemma C1_witness :
  exists (t_in t_out : text) (r : re_pattern) (repl : text -> text),
    redact_loop rt0 [] leak_text = Ok t_in
    /\ compile_value rt0 (regex (snd ssn_entry)) = Ok r
    /\ re_template rt0 (placeholder rt0 (fst ssn_entry)) = Ok repl
    /\ redact_step rt0 ssn_entry t_in = Ok t_out
    /\ redact_loop rt0 (tl patterns) t_out = Ok leak_redacted
    /\ pass_replaces_matches (rt_unicode rt0) r repl t_in t_out.
Proof.
  apply (C1_each_pass_replaces_its_matches rt0 default_valves leak_text leak_redacted
           patterns [] (tl patterns) ssn_entry).
  - reflexivity.
  - vm_compute. reflexivity.
  - reflexivity.
Defined.

(** * Further properties *)

(** ** The active detectors *)

Lemma text_eqb_neq (a b : text) : text_eqb a b = false <-> a <> b.
Proof.
  split.
  - intros H E. apply text_eqb_eq in E. congruence.
  - intros H. destruct (text_eqb a b) eqn:E; [|reflexivity].
    apply text_eqb_eq in E. contradiction.
Qed.

Lemma existsb_text_eqb (x : text) (l : list text) :
  existsb (text_eqb x) l = true <-> In x l.
Proof.
  rewrite existsb_exists. split.
  - intros (y & Hy & E). apply text_eqb_eq in E. now subst.
  - intros H. exists x. split; [exact H|apply text_eqb_refl].
Qed.

Lemma distinctb_NoDup (l : list text) : distinctb l = true -> NoDup l.
Proof.
  induction l as [|x l IH]; simpl; [constructor|].
  intros H. apply andb_prop in H. destruct H as [H1 H2].
  constructor; [|auto].
  intros Hin. apply existsb_text_eqb in Hin. rewrite Hin in H1. discriminate.
Qed.

Lemma registry_names_distinct : NoDup (map fst patterns).
Proof. apply distinctb_NoDup. vm_compute. reflexivity. Qed.

Lemma registry_names_plain :
  Forall (fun np => starts_with (txt "custom_") (fst np) = false) patterns.
Proof.
  unfold patterns. repeat (apply Forall_cons; [reflexivity|]). apply Forall_nil.
Qed.

Lemma NoDup_keys_filter {V : Type} (f : text * V -> bool) (l : list (text * V)) :
  NoDup (map fst l) -> NoDup (map fst (filter f l)).
Proof.
  induction l as [|x l IH]; simpl; [auto|].
  intros H. inversion H as [|? ? Hx Hl]; subst.
  destruct (f x); simpl; [|auto].
  constructor; [|auto].
  intros Hin. apply Hx. apply in_map_iff in Hin. destruct Hin as (y & Hy & Hin).
  apply filter_In in Hin. apply in_map_iff. exists y. tauto.
Qed.

Lemma NoDup_keys_unique {V : Type} (l : list (text * V)) (k : text) (a b : V) :
  NoDup (map fst l) -> In (k, a) l -> In (k, b) l -> a = b.
Proof.
  induction l as [|[k0 v0] l IH]; simpl; [intros _ []|].
  intros H. inversion H as [|? ? Hx Hl]; subst.
  intros Ha Hb. destruct Ha as [Ea|Ha], Hb as [Eb|Hb].
  - congruence.
  - injection Ea as E1 E2. subst. exfalso. apply Hx.
    apply in_map_iff. exists (k, b). auto.
  - injection Eb as E1 E2. subst. exfalso. apply Hx.
    apply in_map_iff. exists (k, a). auto.
  - auto.
Qed.

(* d[k] = v keeps the keys of d, adding k at the end when it is new *)
Lemma dict_set_keys {V : Type} (k : text) (v : V) (d : list (text * V)) :
  map fst (dict_set k v d)
  = if existsb (text_eqb k) (map fst d) then map fst d else map fst d ++ [k].
Proof.
  induction d as [|[k0 v0] d IH]; simpl; [reflexivity|].
  destruct (text_eqb k k0) eqn:E; simpl.
  - apply text_eqb_eq in E. now subst.
  - rewrite IH. destruct (existsb (text_eqb k) (map fst d)); reflexivity.
Qed.

Lemma dict_set_NoDup {V : Type} (k : text) (v : V) (d : list (text * V)) :
  NoDup (map fst d) -> NoDup (map fst (dict_set k v d)).
Proof.
  intros H. rewrite dict_set_keys.
  destruct (existsb (text_eqb k) (map fst d)) eqn:E; [exact H|].
  apply NoDup_app; [exact H|constructor; [intros []|constructor]|].
  intros x Hx [<-|[]]. apply existsb_text_eqb in Hx. congruence.
Qed.

Lemma dict_items_NoDup {V : Type} (members : list (text * V)) :
  NoDup (map fst (dict_items members)).
Proof.
  unfold dict_items.
  assert (H : forall acc : list (text * V),
             NoDup (map fst acc) ->
             NoDup (map fst (fold_left (fun d kv => dict_set (fst kv) (snd kv) d)
                                       members acc))).
  { induction members as [|kv members IH]; intros acc Hacc; simpl; [exact Hacc|].
    apply IH, dict_set_NoDup, Hacc. }
  apply H. constructor.
Qed.

(* inserting a custom entry leaves a prefix of plainly named entries alone *)
Lemma dict_set_past_plain (k : text) (p : pattern) (base cs : list (text * pattern)) :
  Forall (fun np => fst np <> k) base ->
  dict_set k p (base ++ cs) = base ++ dict_set k p cs.
Proof.
  induction 1 as [|[k0 p0] base Hk _ IH]; simpl; [reflexivity|].
  simpl in Hk. destruct (text_eqb k k0) eqn:E.
  - apply text_eqb_eq in E. congruence.
  - now rewrite IH.
Qed.

Lemma plain_is_not_custom (base : list (text * pattern)) (n : text) :
  Forall (fun np => starts_with (txt "custom_") (fst np) = false) base ->
  Forall (fun np => fst np <> txt "custom_" ++ n) base.
Proof.
  induction 1 as [|np base Hnp _ IH]; constructor; [|exact IH].
  intros E. pose proof (starts_with_app (txt "custom_") n) as H.
  unfold text in *. rewrite <- E in H. congruence.
Qed.

Lemma add_customs_split (items : list (text * json)) :
  forall base cs : list (text * pattern),
    Forall (fun np => starts_with (txt "custom_") (fst np) = false) base ->
    fold_left add_custom items (base ++ cs) = base ++ fold_left add_custom items cs.
Proof.
  induction items as [|kv items IH]; intros base cs Hb; simpl; [reflexivity|].
  unfold add_custom at 2 4. cbn [custom_entry fst snd].
  rewrite dict_set_past_plain by (apply plain_is_not_custom, Hb).
  apply IH, Hb.
Qed.

Lemma dict_set_custom_made (n : text) (rx : json) (cs : list (text * pattern)) :
  Forall custom_made cs ->
  Forall custom_made (add_custom cs (n, rx)).
Proof.
  unfold add_custom. cbn [custom_entry fst snd].
  induction 1 as [|[k0 p0] cs Hc Hcs IH]; cbn [dict_set].
  - constructor; [|constructor]. repeat split.
  - destruct (text_eqb (txt "custom_" ++ n) k0).
    + constructor; [|exact Hcs]. repeat split.
    + constructor; [exact Hc|exact IH].
Qed.

Lemma add_customs_made (items : list (text * json)) :
  forall cs, Forall custom_made cs -> Forall custom_made (fold_left add_custom items cs).
Proof.
  induction items as [|[n rx] items IH]; intros cs H; simpl; [exact H|].
  apply IH, dict_set_custom_made, H.
Qed.

Lemma add_customs_NoDup (items : list (text * json)) :
  forall cs, NoDup (map fst cs) -> NoDup (map fst (fold_left add_custom items cs)).
Proof.
  induction items as [|kv items IH]; intros cs H; simpl; [exact H|].
  apply IH. unfold add_custom. apply dict_set_NoDup, H.
Qed.

Lemma active_shape (rt : runtime) (v : Valves) (active : list (text * pattern)) :
  _get_active_patterns rt v = Ok active ->
  exists customs,
    active = filter (toggled_on v) patterns ++ customs
    /\ Forall custom_made customs
    /\ NoDup (map fst customs).
Proof.
  unfold _get_active_patterns.
  assert (Hplain : Forall (fun np => starts_with (txt "custom_") (fst np) = false)
                          (filter (toggled_on v) patterns))
    by apply Forall_filter_keep, registry_names_plain.
  remember (filter (toggled_on v) patterns) as base eqn:Hbase. clear Hbase.
  destruct (json_loads rt (custom_patterns v)) as [[| | | | |members]|e];
    try discriminate.
  - intros H. injection H as <-.
    exists (fold_left add_custom (dict_items members) []).
    split; [|split].
    + rewrite <- (add_customs_split _ base [] Hplain). now rewrite app_nil_r.
    + apply add_customs_made. constructor.
    + apply add_customs_NoDup. constructor.
  - destruct e; try discriminate; intros H; injection H as <-;
      exists []; rewrite app_nil_r; repeat split; constructor.
Qed.

Lemma active_names_distinct (rt : runtime) (v : Valves) (active : list (text * pattern)) :
  _get_active_patterns rt v = Ok active -> NoDup (map fst active).
Proof.
  intros H. destruct (active_shape rt v active H) as (cs & -> & Hm & Hn).
  rewrite map_app. apply NoDup_app.
  - apply NoDup_keys_filter, registry_names_distinct.
  - exact Hn.
  - intros k Hk Hc. apply in_map_iff in Hk. destruct Hk as (np & <- & Hnp).
    apply in_map_iff in Hc. destruct Hc as (cp & E & Hcp).
    apply filter_In in Hnp. destruct Hnp as [Hnp _].
    pose proof registry_names_plain as Hp. rewrite Forall_forall in Hp.
    rewrite Forall_forall in Hm. destruct (Hm cp Hcp) as [Hpre _].
    rewrite E in Hpre. rewrite (Hp np Hnp) in Hpre. discriminate.
Qed.



(** ** What a scan returns *)

Lemma scan_loop_fires (rt : runtime) (l : list (text * pattern)) (t : text) :
  forall ds, scan_loop rt l (Some t) = Ok ds ->
             ds = map finding_of (filter (fires rt t) l).
Proof.
  induction l as [|[name p] l IH]; cbn [scan_loop]; intros ds.
  - now intros [= <-].
  - destruct (compile_value rt (regex p)) as [r|] eqn:Hc; cbn [bind]; [|discriminate].
    destruct (scan_loop rt l (Some t)) as [ds'|]; cbn [bind]; [|discriminate].
    intros [= <-]. cbn [filter].
    assert (Hf : fires rt t (name, p) = re_search (rt_unicode rt) r t)
      by (unfold fires; cbn [snd]; now rewrite Hc).
    rewrite Hf, (IH ds' eq_refl).
    destruct (re_search (rt_unicode rt) r t); reflexivity.
Qed.

Lemma NoDup_map_filter {A B : Type} (g : A -> B) (f : A -> bool) (l : list A) :
  NoDup (map g l) -> NoDup (map g (filter f l)).
Proof.
  induction l as [|x l IH]; simpl; [auto|].
  intros H. inversion H as [|? ? Hx Hl]; subst.
  destruct (f x); simpl; [|auto].
  constructor; [|auto].
  intros Hin. apply Hx. apply in_map_iff in Hin. destruct Hin as (y & Hy & Hin).
  apply filter_In in Hin. apply in_map_iff. exists y. tauto.
Qed.

(** X2.  When a scan returns, its findings are exactly the active
    detectors whose pattern matches somewhere in the text, in the order
    of the active detectors, one finding each: no detector is reported
    twice, however often it matches. *)
Theorem scan_reports_each_detector_once :
  forall (rt : runtime) (v : Valves) (t : text) (ds : list finding),
    _scan_text rt v (Some t) = Ok ds ->
    exists active,
      _get_active_patterns rt v = Ok active
      /\ ds = map finding_of (filter (fires rt t) active)
      /\ NoDup (map finding_name ds).
Proof.
  intros rt v t ds H. unfold _scan_text in H.
  destruct (_get_active_patterns rt v) as [active|] eqn:Ha; cbn [bind] in H;
    [|discriminate].
  exists active. split; [reflexivity|].
  apply scan_loop_fires in H. split; [exact H|]. subst ds.
  rewrite map_map. cbn [finding_name finding_of fst].
  apply (NoDup_map_filter fst), (active_names_distinct rt v), Ha.
Qed.

Lemma scan_reports_each_detector_once_witness :
  exists active,
    _get_active_patterns rt0 default_valves = Ok active
    /\ [(txt "ssn", txt "Social Security Number", txt "critical")]
       = map finding_of (filter (fires rt0 ssn_message) active)
    /\ NoDup (map finding_name
                  [(txt "ssn", txt "Social Security Number", txt "critical")]).
Proof.
  apply (scan_reports_each_detector_once rt0 default_valves ssn_message).
  vm_compute. reflexivity.
Defined.

(** X3.  A built-in detector whose toggle is off is never reported,
    whatever the text and whatever the custom mapping holds: a custom
    entry cannot take a built-in detector's name. *)
Theorem disabled_detector_never_reports :
  forall (rt : runtime) (v : Valves) (t : text) (ds : list finding)
         (name : text) (p : pattern),
    In (name, p) patterns ->
    getattr_valve v (valve p) = false ->
    _scan_text rt v (Some t) = Ok ds ->
    ~ reports name ds.
Proof.
  intros rt v t ds name p Hin Hoff Hscan (f & Hf & Hname).
  unfold _scan_text in Hscan.
  destruct (_get_active_patterns rt v) as [active|] eqn:Ha; cbn [bind] in Hscan;
    [|discriminate].
  apply scan_loop_fires in Hscan. subst ds.
  apply in_map_iff in Hf. destruct Hf as ([n q] & <- & Hq).
  cbn in Hname. subst n. apply filter_In in Hq. destruct Hq as [Hq _].
  pose proof registry_names_plain as Hp. rewrite Forall_forall in Hp.
  apply (active_builtin rt v active name q (Hp _ Hin) Ha) in Hq.
  destruct Hq as [Hq Hon].
  assert (q = p) by (eapply NoDup_keys_unique; eauto using registry_names_distinct).
  subst q. unfold toggled_on in Hon. cbn [snd] in Hon. congruence.
Qed.

Lemma disabled_detector_never_reports_witness :
  _scan_text rt0 ssn_off (Some ssn_message) = Ok []
  /\ ~ reports (txt "ssn") [].
Proof.
  split; [vm_compute; reflexivity|].
  apply (disabled_detector_never_reports rt0 ssn_off ssn_message []
           (txt "ssn") (snd ssn_entry)).
  - left. reflexivity.
  - reflexivity.
  - vm_compute. reflexivity.
Defined.

(** ** Text the scan finds clean *)

Section CleanFacts.
Variable X : unicode_ext.

Lemma search_from_none (r : re_pattern) (prev : option N) (s : text) :
  search_from X r prev s = false ->
  match_here X r false prev s = None
  /\ match s with
     | [] => True
     | c :: s' => search_from X r (Some c) s' = false
     end.
Proof.
  destruct s as [|c s]; cbn [search_from];
    destruct (match_here X r false prev _); try discriminate; auto.
Qed.

(* where nothing matches, the scan of [re.sub] keeps every character *)
Lemma re_scan_clean (r : re_pattern) (repl : text -> text) :
  forall fuel s (adv : bool) prev,
    search_from X r prev s = false ->
    map (piece_out repl) (re_scan X fuel r adv prev s)
    = map piece_in (re_scan X fuel r adv prev s).
Proof.
  induction fuel as [|fuel IH]; intros s adv prev Hs; [reflexivity|].
  apply search_from_none in Hs. destruct Hs as [Hm Hs].
  assert (Hadv : match_here X r adv prev s = None)
    by (destruct adv; [apply match_here_must_advance|]; exact Hm).
  cbn [re_scan]. rewrite Hadv. destruct s as [|c s]; [reflexivity|].
  cbn [map piece_out piece_in]. f_equal. apply IH, Hs.
Qed.

Lemma re_sub_clean (r : re_pattern) (repl : text -> text) (s : text) :
  re_search X r s = false -> re_sub X r repl s = s.
Proof.
  intros H. unfold re_sub, re_pieces.
  rewrite (re_scan_clean r repl _ s false None H). apply re_pieces_spell.
Qed.
End CleanFacts.

Lemma scan_loop_clean_cons (rt : runtime) (np : text * pattern)
      (l : list (text * pattern)) (t : text) :
  scan_loop rt (np :: l) (Some t) = Ok [] ->
  exists r, compile_value rt (regex (snd np)) = Ok r
            /\ re_search (rt_unicode rt) r t = false
            /\ scan_loop rt l (Some t) = Ok [].
Proof.
  destruct np as [name p]. cbn [scan_loop snd].
  destruct (compile_value rt (regex p)) as [r|]; cbn [bind]; [|discriminate].
  destruct (scan_loop rt l (Some t)) as [ds|]; cbn [bind]; [|discriminate].
  destruct (re_search (rt_unicode rt) r t) eqn:Hs; [discriminate|].
  intros [= ->]. exists r. auto.
Qed.

Lemma redact_step_clean (rt : runtime) (np : text * pattern) (t : text) (r : re_pattern) :
  compile_value rt (regex (snd np)) = Ok r ->
  re_search (rt_unicode rt) r t = false ->
  redact_step rt np t
  = (repl <- re_template rt (placeholder rt (fst np)) ;; Ok t).
Proof.
  intros Hc Hs. unfold redact_step. rewrite Hc. cbn [bind].
  destruct (re_template rt (placeholder rt (fst np))) as [repl|e]; cbn [bind];
    [|reflexivity].
  now rewrite re_sub_clean.
Qed.

Lemma redact_loop_clean (rt : runtime) (l : list (text * pattern)) (t : text) :
  scan_loop rt l (Some t) = Ok [] ->
  (forall out, redact_loop rt l t = Ok out -> out = t)
  /\ (Forall (has_template rt) l -> redact_loop rt l t = Ok t).
Proof.
  induction l as [|np l IH]; intros Hs.
  - split; [now intros out [= <-]|reflexivity].
  - apply scan_loop_clean_cons in Hs. destruct Hs as (r & Hc & Hr & Hl).
    destruct (IH Hl) as [IH1 IH2]. cbn [redact_loop].
    rewrite (redact_step_clean rt np t r Hc Hr). split.
    + intros out.
      destruct (re_template rt (placeholder rt (fst np))); cbn [bind];
        [apply IH1|discriminate].
    + intros Hall. inversion Hall as [|? ? [repl Ht] Hrest]; subst.
      rewrite Ht. cbn [bind]. apply IH2, Hrest.
Qed.

Lemma redact_text_clean (rt : runtime) (v : Valves) (t out : text) :
  _scan_text rt v (Some t) = Ok [] -> _redact_text rt v t = Ok out -> out = t.
Proof.
  unfold _scan_text, _redact_text.
  destruct (_get_active_patterns rt v) as [active|]; cbn [bind]; [|discriminate].
  intros Hs. apply (redact_loop_clean rt active t Hs).
Qed.

Lemma registry_has_templates (rt : runtime) (v : Valves) :
  Forall (has_template rt) (filter (toggled_on v) patterns).
Proof.
  apply Forall_filter_keep.
  pose proof (patterns_plain rt) as H. rewrite Forall_forall in *.
  intros np Hnp. destruct (H np Hnp) as [_ Ht]. eexists. exact Ht.
Qed.

(** X4.  The redactor changes nothing in a text the scanner finds clean:
    when the scan of a text returns no finding, the redaction of that
    text, whenever it returns, returns the text itself; and it does
    return when every active detector's placeholder can be used as a
    replacement (as it can for all built-in detectors). *)
Theorem clean_text_is_left_unchanged :
  forall (rt : runtime) (v : Valves) (t : text) (active : list (text * pattern)),
    _get_active_patterns rt v = Ok active ->
    _scan_text rt v (Some t) = Ok [] ->
    (forall out, _redact_text rt v t = Ok out -> out = t)
    /\ (Forall (has_template rt) active -> _redact_text rt v t = Ok t)
    /\ Forall (has_template rt) (filter (toggled_on v) patterns).
Proof.
  intros rt v t active Ha Hs. unfold _scan_text in Hs. unfold _redact_text.
  rewrite Ha in *. cbn [bind] in *.
  destruct (redact_loop_clean rt active t Hs) as [H1 H2].
  split; [exact H1|]. split; [exact H2|apply registry_has_templates].
Qed.

Lemma clean_text_is_left_unchanged_witness :
  (forall out, _redact_text rt0 default_valves (txt "What is the capital of France?")
               = Ok out -> out = txt "What is the capital of France?")
  /\ (Forall (has_template rt0) patterns ->
      _redact_text rt0 default_valves (txt "What is the capital of France?")
      = Ok (txt "What is the capital of France?"))
  /\ Forall (has_template rt0) (filter (toggled_on default_valves) patterns).
Proof.
  apply (clean_text_is_left_unchanged rt0 default_valves
           (txt "What is the capital of France?") patterns).
  - reflexivity.
  - vm_compute. reflexivity.
Defined.

(** ** The outbound hook *)

Lemma with_messages_same (body : Body) :
  with_messages body (get (messages body) []) = body.
Proof. destruct body as [[ms|] fs md]; reflexivity. Qed.

Lemma outlet_message_clean (rt : runtime) (v : Valves) (m : Message) :
  clean_reply rt v m -> outlet_message rt v m = Ok m.
Proof.
  intros H. unfold outlet_message, clean_reply in *.
  destruct (is_assistant m); cbn [negb]; [|reflexivity].
  destruct (content m) as [t|items|repr]; try reflexivity.
  now rewrite (H eq_refl t eq_refl).
Qed.

Lemma outlet_messages_clean (rt : runtime) (v : Valves) (ms : list Message) :
  Forall (clean_reply rt v) ms -> outlet_messages rt v ms = Ok ms.
Proof.
  induction 1 as [|m ms Hm _ IH]; [reflexivity|].
  cbn [outlet_messages]. rewrite (outlet_message_clean rt v m Hm). cbn [bind].
  now rewrite IH.
Qed.

(** X5.  The outbound hook returns a response untouched when the scan
    finds nothing in the string content of its assistant messages;
    unlike the inbound hook it rewrites no blank content, and it looks
    at no other message. *)
Theorem outlet_keeps_clean_response :
  forall (rt : runtime) (v : Valves) (body : Body),
    Forall (clean_reply rt v) (get (messages body) []) ->
    outlet rt v body = Ok body.
Proof.
  intros rt v body H. unfold outlet. destruct (negb (enabled v)); [reflexivity|].
  rewrite (outlet_messages_clean rt v _ H). cbn [bind].
  now rewrite with_messages_same.
Qed.

Lemma outlet_keeps_clean_response_witness :
  outlet rt0 default_valves
         (chat [ {| role := Some (txt "user"); content := CStr ssn_message |};
                 reply (txt "   ") ])
  = Ok (chat [ {| role := Some (txt "user"); content := CStr ssn_message |};
               reply (txt "   ") ]).
Proof.
  apply (outlet_keeps_clean_response rt0 default_valves).
  repeat constructor.
  - intros H. discriminate H.
  - intros _ t [= <-]. vm_compute. reflexivity.
Defined.

Lemma outlet_message_changes (rt : runtime) (v : Valves) (m m' : Message) :
  outlet_message rt v m = Ok m' -> outlet_changes rt v m m'.
Proof.
  unfold outlet_message, outlet_changes.
  destruct (is_assistant m); cbn [negb]; [|intros [= <-]; now left].
  destruct (content m) as [t|items|repr]; try (intros [= <-]; now left).
  destruct (_scan_text rt v (Some t)) as [[|d ds]|] eqn:Hs; cbn [bind];
    [intros [= <-]; now left| |discriminate].
  destruct (_redact_text rt v t) as [t'|] eqn:Hr; cbn [bind]; [|discriminate].
  intros [= <-]. right. split; [reflexivity|]. exists t, t', d, ds. auto.
Qed.

Lemma outlet_messages_change (rt : runtime) (v : Valves) (ms : list Message) :
  forall ms', outlet_messages rt v ms = Ok ms' ->
              Forall2 (outlet_changes rt v) ms ms'.
Proof.
  induction ms as [|m ms IH]; cbn [outlet_messages]; intros ms'.
  - intros [= <-]. constructor.
  - destruct (outlet_message rt v m) as [m1|] eqn:Hm; cbn [bind]; [|discriminate].
    destruct (outlet_messages rt v ms) as [ms1|]; cbn [bind]; [|discriminate].
    intros [= <-]. constructor; [apply outlet_message_changes, Hm|apply IH; reflexivity].
Qed.

(** X6.  Whatever the outbound hook returns differs from the response
    it was given only in the string content of assistant messages in
    which the scan found something, each replaced by the redactor's
    output for it: the messages keep their number, order and roles, and
    the file list and the metadata are the ones received. *)
Theorem outlet_changes_only_flagged_assistant_text :
  forall (rt : runtime) (v : Valves) (body out : Body),
    outlet rt v body = Ok out ->
    files out = files body
    /\ metadata out = metadata body
    /\ Forall2 (outlet_changes rt v) (get (messages body) []) (get (messages out) [])
    /\ map role (get (messages out) []) = map role (get (messages body) []).
Proof.
  intros rt v body out. unfold outlet.
  assert (Hsame : forall ms : list Message, Forall2 (outlet_changes rt v) ms ms)
    by (induction ms; constructor; [now left|assumption]).
  destruct (negb (enabled v)).
  - intros [= <-]. repeat split. apply Hsame.
  - destruct (outlet_messages rt v (get (messages body) [])) as [ms'|] eqn:Hm;
      cbn [bind]; [|discriminate].
    intros [= <-]. apply outlet_messages_change in Hm.
    assert (Hget : get (messages (with_messages body ms')) [] = ms'
                   \/ (messages body = None /\ messages (with_messages body ms') = None)).
    { unfold with_messages. cbn [messages]. destruct (messages body); [left|right]; auto. }
    assert (Hall : Forall2 (outlet_changes rt v) (get (messages body) [])
                           (get (messages (with_messages body ms')) [])).
    { destruct Hget as [->|[H1 H2]]; [exact Hm|]. rewrite H1, H2. constructor. }
    repeat split; [exact Hall|].
    clear - Hall. induction Hall as [|m m' ms ms1 Hc _ IH]; [reflexivity|].
    cbn [map]. f_equal; [|exact IH].
    destruct Hc as [->|(_ & t & t' & d & ds & _ & _ & _ & ->)]; reflexivity.
Qed.

Lemma outlet_changes_only_flagged_assistant_text_witness :
  files (chat [reply (txt "Your SSN is [REDACTED-SSN]")]) = files (chat [reply (txt "Your SSN is 123-45-6789")])
  /\ metadata (chat [reply (txt "Your SSN is [REDACTED-SSN]")])
     = metadata (chat [reply (txt "Your SSN is 123-45-6789")])
  /\ Forall2 (outlet_changes rt0 default_valves)
             (get (messages (chat [reply (txt "Your SSN is 123-45-6789")])) [])
             (get (messages (chat [reply (txt "Your SSN is [REDACTED-SSN]")])) [])
  /\ map role (get (messages (chat [reply (txt "Your SSN is [REDACTED-SSN]")])) [])
     = map role (get (messages (chat [reply (txt "Your SSN is 123-45-6789")])) []).
Proof.
  apply (outlet_changes_only_flagged_assistant_text rt0 default_valves).
  vm_compute. reflexivity.
Defined.

Lemma toggled_on_with_mode (m : string) (v : Valves) (np : text * pattern) :
  toggled_on (with_mode m v) np = toggled_on v np.
Proof. reflexivity. Qed.

Lemma active_with_mode (rt : runtime) (m : string) (v : Valves) :
  _get_active_patterns rt (with_mode m v) = _get_active_patterns rt v.
Proof.
  unfold _get_active_patterns.
  rewrite (filter_ext _ _ (toggled_on_with_mode m v)). reflexivity.
Qed.

Lemma outlet_message_with_mode (rt : runtime) (m : string) (v : Valves) (x : Message) :
  outlet_message rt (with_mode m v) x = outlet_message rt v x.
Proof.
  unfold outlet_message, _scan_text, _redact_text. now rewrite active_with_mode.
Qed.

Lemma outlet_messages_with_mode (rt : runtime) (m : string) (v : Valves)
      (ms : list Message) :
  outlet_messages rt (with_mode m v) ms = outlet_messages rt v ms.
Proof.
  induction ms as [|x ms IH]; [reflexivity|].
  cbn [outlet_messages]. now rewrite IH, outlet_message_with_mode.
Qed.

(** X7.  The outbound hook does not read the mode: in block mode too a
    response with sensitive text is redacted, never rejected, and an
    unrecognised mode does not switch the redaction off. *)
Theorem outlet_ignores_the_mode :
  forall (rt : runtime) (v : Valves) (m : string) (body : Body),
    outlet rt (with_mode m v) body = outlet rt v body.
Proof.
  intros rt v m body. unfold outlet. cbn [enabled with_mode].
  now rewrite outlet_messages_with_mode.
Qed.

(** ** File names and extractors *)

Lemma after_last_dot_none (s : text) :
  has_dot s = false -> after_last_dot s = None.
Proof.
  unfold has_dot. induction s as [|c s IH]; cbn [existsb after_last_dot]; [reflexivity|].
  intros H. apply orb_false_elim in H. destruct H as [Hc Hs].
  now rewrite (IH Hs), Hc.
Qed.

Lemma after_last_dot_suffix (stem e : text) :
  has_dot e = false -> after_last_dot (stem ++ txt "." ++ e) = Some e.
Proof.
  intros He. induction stem as [|c stem IH].
  - cbn [app txt after_last_dot]. now rewrite (after_last_dot_none e He).
  - rewrite <- app_comm_cons. cbn [after_last_dot]. now rewrite IH.
Qed.

Lemma no_dot_no_extractor (rt : runtime) (s : text) :
  has_dot s = false -> _get_file_extension rt s = [] /\ extractor_of rt s = None.
Proof.
  intros H. unfold extractor_of, _get_file_extension.
  rewrite (after_last_dot_none s H). split; reflexivity.
Qed.

(** X8.  The extension of a file name is what follows its last dot,
    lowercased, whatever precedes it; a name without a dot has the empty
    extension, for which there is no extractor. *)
Theorem file_extension_follows_the_last_dot :
  forall (rt : runtime) (stem e : text),
    has_dot e = false ->
    _get_file_extension rt (stem ++ txt "." ++ e) = str_lower (rt_unicode rt) e
    /\ extractor_of rt (stem ++ txt "." ++ e) = extractor_of rt (txt "." ++ e)
    /\ _get_file_extension rt e = []
    /\ extractor_of rt e = None.
Proof.
  intros rt stem e He.
  assert (H : forall s, _get_file_extension rt (s ++ txt "." ++ e)
                        = str_lower (rt_unicode rt) e)
    by (intros s; unfold _get_file_extension; now rewrite after_last_dot_suffix).
  split; [apply H|]. split; [|apply no_dot_no_extractor, He].
  unfold extractor_of. rewrite (H stem).
  change (txt "." ++ e) with ([] ++ txt "." ++ e). now rewrite (H []).
Qed.

Lemma file_extension_follows_the_last_dot_witness :
  _get_file_extension rt0 (txt "Q3.payroll" ++ txt "." ++ txt "XLSX")
  = str_lower (rt_unicode rt0) (txt "XLSX")
  /\ extractor_of rt0 (txt "Q3.payroll" ++ txt "." ++ txt "XLSX")
     = extractor_of rt0 (txt "." ++ txt "XLSX")
  /\ _get_file_extension rt0 (txt "XLSX") = []
  /\ extractor_of rt0 (txt "XLSX") = None.
Proof.
  apply (file_extension_follows_the_last_dot rt0 (txt "Q3.payroll") (txt "XLSX")).
  reflexivity.
Defined.

(** ** Which files are opened, and which are flagged *)

Lemma resolve_no_extract (rt : runtime) (file_id file_name : text) (e : event) :
  In e (snd (_resolve_file_path rt file_id file_name)) -> is_extract e = false.
Proof.
  intros Hin. pose proof (resolve_only_globs rt file_id file_name) as H.
  destruct (is_extract e) eqn:He; [|reflexivity].
  assert (Hex : existsb is_extract (snd (_resolve_file_path rt file_id file_name)) = true)
    by (apply existsb_exists; exists e; auto).
  congruence.
Qed.

Lemma scan_file_unsupported (rt : runtime) (v : Valves) (ty id fname : option text) :
  extractor_of rt (get fname (txt "unknown")) = None ->
  fst (scan_file rt v (FileDict ty id fname)) = None
  /\ existsb is_extract (snd (scan_file rt v (FileDict ty id fname))) = false.
Proof.
  intros Hx. unfold scan_file.
  destruct (negb _); [split; reflexivity|].
  destruct (get id []) as [|c i]; [split; reflexivity|].
  pose proof (resolve_only_globs rt (c :: i) (get fname (txt "unknown"))) as Hg.
  destruct (_resolve_file_path rt (c :: i) (get fname (txt "unknown")))
    as [[[[|p path]|]|e] tr]; cbn [snd] in Hg; try (split; [reflexivity|exact Hg]).
  assert (Hg1 : existsb is_extract (tr ++ [EvGetsize (p :: path)]) = false)
    by (rewrite existsb_app, Hg; reflexivity).
  destruct (rt_getsize rt (p :: path)) as [size|e]; [|split; [reflexivity|exact Hg1]].
  destruct (size >? max_file_size_mb v * 1024 * 1024)%Z;
    [split; [reflexivity|exact Hg1]|].
  rewrite Hx. split; [reflexivity|exact Hg1].
Qed.

(** X9.  A file whose name has no supported extension is never opened:
    no extractor is called for it, it is never flagged, and the scan of
    the whole list is the scan of the list without it, whatever the
    file holds. *)
Theorem unsupported_file_is_not_opened :
  forall (rt : runtime) (v : Valves) (ty id fname : option text),
    extractor_of rt (get fname (txt "unknown")) = None ->
    fst (scan_file rt v (FileDict ty id fname)) = None
    /\ existsb is_extract (snd (scan_file rt v (FileDict ty id fname))) = false
    /\ forall before after : list FileRef,
         fst (scan_files_loop rt v (before ++ FileDict ty id fname :: after))
         = fst (scan_files_loop rt v (before ++ after)).
Proof.
  intros rt v ty id fname Hx.
  destruct (scan_file_unsupported rt v ty id fname Hx) as [H1 H2].
  split; [exact H1|]. split; [exact H2|]. intros before after.
  rewrite !scan_files_loop_app, scan_files_loop_cons, H1. reflexivity.
Qed.

Lemma unsupported_file_is_not_opened_witness :
  fst (scan_file rt_small_file default_valves
         (FileDict (Some (txt "file")) (Some (txt "f1")) (Some (txt "payroll.zip"))))
  = None
  /\ existsb is_extract
       (snd (scan_file rt_small_file default_valves
               (FileDict (Some (txt "file")) (Some (txt "f1")) (Some (txt "payroll.zip")))))
     = false
  /\ forall before after : list FileRef,
       fst (scan_files_loop rt_small_file default_valves
              (before ++ FileDict (Some (txt "file")) (Some (txt "f1"))
                                  (Some (txt "payroll.zip")) :: after))
       = fst (scan_files_loop rt_small_file default_valves (before ++ after)).
Proof.
  apply (unsupported_file_is_not_opened rt_small_file default_valves
           (Some (txt "file")) (Some (txt "f1")) (Some (txt "payroll.zip"))).
  reflexivity.
Defined.

(** X10.  A file reference that carries no name is never scanned: it is
    treated as the file "unknown", which has no extension, so that no
    extractor is called for it and it is never flagged, whatever the
    file holds. *)
Theorem nameless_file_is_never_scanned :
  forall (rt : runtime) (v : Valves) (ty id : option text),
    fst (scan_file rt v (FileDict ty id None)) = None
    /\ existsb is_extract (snd (scan_file rt v (FileDict ty id None))) = false.
Proof.
  intros rt v ty id. apply scan_file_unsupported. reflexivity.
Qed.

Lemma scan_file_flagged (rt : runtime) (v : Valves) (f : FileRef)
      (name : text) (ds : list finding) :
  fst (scan_file rt v f) = Some (name, ds) <-> scanned_as rt v f name ds.
Proof.
  split.
  - destruct f as [ty id fname|tag]; [|discriminate]. unfold scan_file.
    destruct (text_eqb (get ty []) (txt "file") || text_eqb (get ty []) []) eqn:Hty;
      cbn [negb]; [|discriminate].
    destruct (get id []) as [|c i] eqn:Hid; [discriminate|].
    destruct (_resolve_file_path rt (c :: i) (get fname (txt "unknown")))
      as [[[[|p path]|]|e] tr] eqn:Hres; try discriminate.
    destruct (rt_getsize rt (p :: path)) as [size|e] eqn:Hsize; [|discriminate].
    destruct (size >? max_file_size_mb v * 1024 * 1024)%Z eqn:Hbig; [discriminate|].
    destruct (extractor_of rt (get fname (txt "unknown"))) as [d|] eqn:Hx; [|discriminate].
    destruct (rt_extract rt d (p :: path)) as [[|x t]|e] eqn:Ht; try discriminate.
    destruct (_scan_text rt v _) as [[|d0 ds0]|e] eqn:Hs; try discriminate.
    cbn [fst]. intros [= <- <-].
    exists ty, id, fname, (p :: path), size, d, (x :: t).
    split; [reflexivity|]. split; [reflexivity|].
    split; [apply orb_prop in Hty; destruct Hty as [H|H]; apply text_eqb_eq in H; auto|].
    split; [rewrite Hid; discriminate|].
    split; [rewrite Hid; exact (f_equal fst Hres)|].
    split; [discriminate|]. split; [exact Hsize|].
    split; [rewrite Z.gtb_ltb in Hbig; apply Z.ltb_ge in Hbig; exact Hbig|].
    split; [exact Hx|]. split; [exact Ht|]. split; [discriminate|].
    split; [exact Hs|discriminate].
  - intros (ty & id & fname & path & size & d & t & -> & -> & Hty & Hid & Hres
            & Hp & Hsize & Hle & Hx & Ht & Htne & Hs & Hne).
    unfold scan_file.
    replace (text_eqb (get ty []) (txt "file") || text_eqb (get ty []) []) with true
      by (symmetry; apply orb_true_iff; destruct Hty as [H|H];
          [left|right]; apply text_eqb_eq; exact H).
    cbn [negb].
    destruct (get id []) as [|c i]; [congruence|].
    destruct (_resolve_file_path rt (c :: i) (get fname (txt "unknown"))) as [o tr].
    cbn [fst] in Hres. subst o.
    destruct path as [|p path]; [congruence|].
    rewrite Hsize.
    replace (size >? max_file_size_mb v * 1024 * 1024)%Z with false
      by (symmetry; rewrite Z.gtb_ltb; apply Z.ltb_ge; exact Hle).
    rewrite Hx, Ht. destruct t as [|x t]; [congruence|].
    rewrite Hs. destruct ds as [|d0 ds]; [congruence|]. reflexivity.
Qed.

Lemma scan_files_loop_In (rt : runtime) (v : Valves) (fs : list FileRef)
      (h : text * list finding) :
  In h (fst (scan_files_loop rt v fs))
  <-> exists f, In f fs /\ fst (scan_file rt v f) = Some h.
Proof.
  induction fs as [|f fs IH].
  - cbn. split; [intros []|intros (f & [] & _)].
  - rewrite scan_files_loop_cons, in_app_iff, IH. split.
    + intros [H|(g & Hg & H)].
      * exists f. split; [now left|].
        destruct (fst (scan_file rt v f)) as [h0|]; [|destruct H].
        destruct H as [->|[]]. reflexivity.
      * exists g. split; [now right|exact H].
    + intros (g & [->|Hg] & H).
      * left. rewrite H. now left.
      * right. exists g. auto.
Qed.

(** X11.  The files [_scan_files] flags are exactly the references of
    the request for which every step went through: a dict of type
    "file" or none, with an id, found on disk, within the size limit,
    with a supported extension, whose extracted text is not empty and in
    which the scan found something; the findings recorded are that
    scan's, so no flagged file has an empty list of findings.  A file
    for which any step fails or raises is treated as clean. *)
Theorem flagged_files_are_the_scanned_ones :
  forall (rt : runtime) (v : Valves) (body : Body) (name : text) (ds : list finding),
    In (name, ds) (fst (_scan_files rt v body))
    <-> exists f, In f (get (files body) []) /\ scanned_as rt v f name ds.
Proof.
  intros rt v body name ds. unfold _scan_files. rewrite scan_files_loop_In.
  split; intros (f & Hf & H); exists f; (split; [exact Hf|]);
    apply scan_file_flagged; exact H.
Qed.

Lemma scan_files_loop_trace (rt : runtime) (v : Valves) (f : FileRef) (l : list FileRef) :
  snd (scan_files_loop rt v (f :: l))
  = snd (scan_file rt v f) ++ snd (scan_files_loop rt v l).
Proof.
  cbn [scan_files_loop].
  destruct (scan_file rt v f) as [hit tr], (scan_files_loop rt v l); reflexivity.
Qed.

Lemma scan_file_extract (rt : runtime) (v : Valves) (f : FileRef) (d : decoder) (p : text) :
  In (EvExtract d p) (snd (scan_file rt v f)) ->
  exists (ty id fname : option text) (size : Z),
    f = FileDict ty id fname
    /\ fst (_resolve_file_path rt (get id []) (get fname (txt "unknown"))) = Ok (Some p)
    /\ rt_getsize rt p = Ok size
    /\ (size <= max_file_size_mb v * 1024 * 1024)%Z
    /\ extractor_of rt (get fname (txt "unknown")) = Some d.
Proof.
  destruct f as [ty id fname|tag]; [|intros []]. unfold scan_file.
  destruct (negb _); [intros []|].
  destruct (get id []) as [|c i] eqn:Hid; [intros []|].
  pose proof (resolve_no_extract rt (c :: i) (get fname (txt "unknown"))
                (EvExtract d p)) as Hg.
  destruct (_resolve_file_path rt (c :: i) (get fname (txt "unknown")))
    as [[[[|x path]|]|e] tr] eqn:Hres; cbn [snd] in *;
    try (intros Hin; specialize (Hg Hin); discriminate Hg).
  assert (Hg1 : In (EvExtract d p) (tr ++ [EvGetsize (x :: path)]) -> False).
  { intros Hin. apply in_app_iff in Hin. destruct Hin as [Hin|[Hin|[]]];
      [specialize (Hg Hin)|]; discriminate. }
  destruct (rt_getsize rt (x :: path)) as [size|e] eqn:Hsize;
    [|intros Hin; destruct (Hg1 Hin)].
  destruct (size >? max_file_size_mb v * 1024 * 1024)%Z eqn:Hbig;
    [intros Hin; destruct (Hg1 Hin)|].
  destruct (extractor_of rt (get fname (txt "unknown"))) as [d0|] eqn:Hx;
    [|intros Hin; destruct (Hg1 Hin)].
  assert (Hfound : In (EvExtract d p)
                      ((tr ++ [EvGetsize (x :: path)]) ++ [EvExtract d0 (x :: path)]) ->
                   d0 = d /\ x :: path = p).
  { intros Hin. apply in_app_iff in Hin. destruct Hin as [Hin|[Hin|[]]];
      [destruct (Hg1 Hin)|]. injection Hin as -> ->. auto. }
  assert (Hend : In (EvExtract d p)
                    ((tr ++ [EvGetsize (x :: path)]) ++ [EvExtract d0 (x :: path)]) ->
                 exists (ty0 id0 fname0 : option text) (size0 : Z),
                   FileDict ty id fname = FileDict ty0 id0 fname0
                   /\ fst (_resolve_file_path rt (get id0 []) (get fname0 (txt "unknown")))
                      = Ok (Some p)
                   /\ rt_getsize rt p = Ok size0
                   /\ (size0 <= max_file_size_mb v * 1024 * 1024)%Z
                   /\ extractor_of rt (get fname0 (txt "unknown")) = Some d).
  { intros Hin. destruct (Hfound Hin) as [-> <-].
    exists ty, id, fname, size. split; [reflexivity|].
    split; [rewrite Hid; exact (f_equal fst Hres)|]. split; [exact Hsize|].
    split; [rewrite Z.gtb_ltb in Hbig; apply Z.ltb_ge in Hbig; exact Hbig|exact Hx]. }
  destruct (rt_extract rt d0 (x :: path)) as [[|y t]|e]; cbn [snd]; try exact Hend.
  destruct (_scan_text rt v _) as [[|d1 ds]|e]; cbn [snd]; exact Hend.
Qed.

(** X12.  An extractor is called only on a file that a reference of the
    request resolves to, whose size was read and is within the limit,
    and it is the extractor registered for the extension of the name
    the reference gives: no file over the limit is ever opened, however
    the request is made up. *)
Theorem extractors_run_only_within_the_limit :
  forall (rt : runtime) (v : Valves) (body : Body) (d : decoder) (p : text),
    In (EvExtract d p) (snd (_scan_files rt v body)) ->
    exists (ty id fname : option text) (size : Z),
      In (FileDict ty id fname) (get (files body) [])
      /\ fst (_resolve_file_path rt (get id []) (get fname (txt "unknown"))) = Ok (Some p)
      /\ rt_getsize rt p = Ok size
      /\ (size <= max_file_size_mb v * 1024 * 1024)%Z
      /\ extractor_of rt (get fname (txt "unknown")) = Some d.
Proof.
  intros rt v body d p. unfold _scan_files.
  induction (get (files body) []) as [|f fs IH]; [intros []|].
  rewrite scan_files_loop_trace, in_app_iff. intros [H|H].
  - apply scan_file_extract in H.
    destruct H as (ty & id & fname & size & -> & H).
    exists ty, id, fname, size. split; [now left|exact H].
  - destruct (IH H) as (ty & id & fname & size & Hin & H').
    exists ty, id, fname, size. split; [now right|exact H'].
Qed.

Lemma extractors_run_only_within_the_limit_witness :
  exists (ty id fname : option text) (size : Z),
    In (FileDict ty id fname)
       (get (files (with_files [small_file] (user_says (txt "see attached")))) [])
    /\ fst (_resolve_file_path rt_small_file (get id []) (get fname (txt "unknown")))
       = Ok (Some (txt "/app/backend/data/uploads/f1_payroll.csv"))
    /\ rt_getsize rt_small_file (txt "/app/backend/data/uploads/f1_payroll.csv") = Ok size
    /\ (size <= max_file_size_mb default_valves * 1024 * 1024)%Z
    /\ extractor_of rt_small_file (get fname (txt "unknown")) = Some Csv.
Proof.
  apply (extractors_run_only_within_the_limit rt_small_file default_valves
           (with_files [small_file] (user_says (txt "see attached")))
           Csv (txt "/app/backend/data/uploads/f1_payroll.csv")).
  vm_compute. right. right. left. reflexivity.
Defined.

(** ** The inbound hook: which messages are read, and what is kept *)

Lemma sanitize_is_user (rt : runtime) (m : Message) :
  is_user (sanitize_message rt m) = is_user m.
Proof.
  destruct m as [r c]. unfold sanitize_message, is_user. cbn [content role].
  destruct c; [destruct (is_blank _ t)|..]; reflexivity.
Qed.

Lemma sanitize_role (rt : runtime) (m : Message) :
  role (sanitize_message rt m) = role m.
Proof.
  destruct m as [r c]. unfold sanitize_message. cbn [content role].
  destruct c; [destruct (is_blank _ t)|..]; reflexivity.
Qed.




Lemma inlet_outside_redact (rt : runtime) (v : Valves) (body out : Body) :
  text_eqb (mode v) (txt "redact") = false ->
  inlet rt v body = Ok out ->
  out = if enabled v
        then with_messages body (map (sanitize_message rt) (get (messages body) []))
        else body.
Proof.
  intros Hr. unfold inlet. destruct (enabled v); cbn [negb]; [|now intros [= <-]].
  destruct (scan_messages rt v _) as [md|]; cbn [bind]; [|discriminate].
  rewrite Hr.
  destruct md as [|d md];
    destruct (if scan_file_uploads v then fst (_scan_files rt v body) else []) as [|fd fds];
    try (now intros [= <-]);
    (destruct (text_eqb (mode v) (txt "block")); [discriminate|now intros [= <-]]).
Qed.

(** X14.  Outside redact mode the inbound hook is idempotent: a request
    it lets through is let through again, unchanged, when handed to it
    a second time. *)
Theorem inlet_is_idempotent_outside_redact_mode :
  forall (rt : runtime) (v : Valves) (body out : Body),
    text_eqb (mode v) (txt "redact") = false ->
    inlet rt v body = Ok out ->
    inlet rt v out = Ok out.
Proof.
  intros rt v body out Hr H. pose proof (inlet_outside_redact rt v body out Hr H) as E.
  destruct (enabled v) eqn:He; [|subst out; exact H].
  destruct (messages body) as [ms|] eqn:Hm.
  - cbn [get] in E. subst out.
    destruct (inlet_sanitized_first rt v body ms Hm) as [E|E]; [|congruence].
    rewrite E. exact H.
  - assert (Eb : with_messages body (map (sanitize_message rt) (get None [])) = body)
      by (destruct body as [bm bf bmd]; cbn [messages] in Hm; subst bm; reflexivity).
    rewrite Eb in E. subst out. exact H.
Qed.

Lemma inlet_is_idempotent_outside_redact_mode_witness :
  inlet rt0 default_valves (chat [says "user" (txt "  "); reply (txt "")])
  = Ok (chat [says "user" NOTICE_EMPTY; reply NOTICE_EMPTY])
  /\ inlet rt0 default_valves (chat [says "user" NOTICE_EMPTY; reply NOTICE_EMPTY])
     = Ok (chat [says "user" NOTICE_EMPTY; reply NOTICE_EMPTY]).
Proof.
  split; [vm_compute; reflexivity|].
  apply (inlet_is_idempotent_outside_redact_mode rt0 default_valves
           (chat [says "user" (txt "  "); reply (txt "")])).
  - reflexivity.
  - vm_compute. reflexivity.
Defined.

Lemma redact_message_frame (rt : runtime) (v : Valves) (m m' : Message) :
  redact_message rt v m = Ok m' ->
  role m' = role m
  /\ (is_user m = false -> m' = m)
  /\ (forall t, content m = CStr t -> _scan_text rt v (Some t) = Ok [] -> m' = m).
Proof.
  intros H. split; [apply (redact_message_role rt v), H|].
  unfold redact_message in H. destruct (is_user m); cbn [negb] in H.
  - split; [discriminate|]. intros t Hc Hs. rewrite Hc in H.
    destruct (_redact_text rt v t) as [t'|] eqn:Hr; cbn [bind] in H; [|discriminate].
    apply (redact_text_clean rt v t t' Hs) in Hr. subst t'.
    injection H as <-. destruct m as [r c]. cbn [content role] in *. now subst c.
  - injection H as <-. split; reflexivity.
Qed.

Lemma redact_messages_frame (rt : runtime) (v : Valves) (ms : list Message) :
  forall ms', redact_messages rt v ms = Ok ms' ->
              Forall2 (fun m m' =>
                         role m' = role m
                         /\ (is_user m = false -> m' = m)
                         /\ (forall t, content m = CStr t ->
                                       _scan_text rt v (Some t) = Ok [] -> m' = m))
                      ms ms'.
Proof.
  induction ms as [|m ms IH]; cbn [redact_messages]; intros ms'.
  - intros [= <-]. constructor.
  - destruct (redact_message rt v m) as [m1|] eqn:Hm; cbn [bind]; [|discriminate].
    destruct (redact_messages rt v ms) as [ms1|]; cbn [bind]; [|discriminate].
    intros [= <-]. constructor; [apply (redact_message_frame rt v), Hm|now apply IH].
Qed.

Lemma inlet_outcomes (rt : runtime) (v : Valves) (body out : Body) :
  enabled v = true ->
  inlet rt v body = Ok out ->
  exists kept,
    (kept = map (sanitize_message rt) (get (messages body) [])
     \/ redact_messages rt v (map (sanitize_message rt) (get (messages body) []))
        = Ok kept)
    /\ (out = with_messages body kept
        \/ exists names fs md,
             messages body <> None
             /\ out = {| messages := Some (kept ++ [dlp_notice names]);
                         files := Some fs; metadata := md |}).
Proof.
  intros He. unfold inlet. rewrite He. cbn [negb].
  set (msgs := map (sanitize_message rt) (get (messages body) [])).
  destruct (scan_messages rt v msgs) as [md|]; cbn [bind]; [|discriminate].
  set (fd := if scan_file_uploads v then fst (_scan_files rt v body) else []).
  assert (Hplain : Ok (with_messages body msgs) = Ok out ->
                   exists kept,
                     (kept = msgs \/ redact_messages rt v msgs = Ok kept)
                     /\ (out = with_messages body kept
                         \/ exists names fs md0,
                              messages body <> None
                              /\ out = {| messages := Some (kept ++ [dlp_notice names]);
                                          files := Some fs; metadata := md0 |}))
    by (intros [= <-]; exists msgs; auto).
  assert (Hredact :
            forall (m0 : outcome (list Message)),
              (m0 = Ok msgs \/ m0 = redact_messages rt v msgs) ->
              (msgs' <- m0 ;;
               match fd with
               | [] => Ok (with_messages body msgs')
               | _ :: _ =>
                   clean_files <- strip_files (py_set rt (map fst fd))
                                              (get (files body) []) ;;
                   md' <- strip_metadata (py_set rt (map fst fd)) (metadata body) ;;
                   match messages body with
                   | None => Raise KeyError
                   | Some _ =>
                       Ok {| messages := Some (msgs' ++ [dlp_notice (py_set rt (map fst fd))]);
                             files := Some clean_files; metadata := md' |}
                   end
               end) = Ok out ->
              exists kept,
                (kept = msgs \/ redact_messages rt v msgs = Ok kept)
                /\ (out = with_messages body kept
                    \/ exists names fs md0,
                         messages body <> None
                         /\ out = {| messages := Some (kept ++ [dlp_notice names]);
                                     files := Some fs; metadata := md0 |})).
  { intros m0 Hm0. destruct m0 as [kept|e]; cbn [bind]; [|discriminate].
    assert (Hk : kept = msgs \/ redact_messages rt v msgs = Ok kept)
      by (destruct Hm0 as [[= ->]|E]; [left|right]; auto).
    destruct fd as [|f fds].
    - intros [= <-]. exists kept. auto.
    - destruct (strip_files _ _) as [fs|]; cbn [bind]; [|discriminate].
      destruct (strip_metadata _ _) as [md'|]; cbn [bind]; [|discriminate].
      destruct (messages body) eqn:Hmb; [|discriminate].
      intros [= <-]. exists kept. split; [exact Hk|]. right.
      exists (py_set rt (map fst (f :: fds))), fs, md'. split; [discriminate|reflexivity]. }
  destruct (text_eqb (mode v) (txt "block")), (text_eqb (mode v) (txt "redact")),
    md as [|d md], fd as [|f fds]; try discriminate; try exact Hplain;
    apply Hredact; auto.
Qed.

(** X15.  Whatever the inbound hook forwards keeps the conversation:
    no message is dropped, reordered or given another role; a message
    that is not a user message, and a message whose string content the
    scan finds clean, is forwarded as received (blank content
    normalised), also when other messages are redacted; the only
    message ever added is one system notice, at the end. *)
Theorem inlet_keeps_the_conversation :
  forall (rt : runtime) (v : Valves) (body out : Body),
    enabled v = true ->
    inlet rt v body = Ok out ->
    exists kept tail,
      get (messages out) [] = kept ++ tail
      /\ Forall2 (inlet_changes rt v) (get (messages body) []) kept
      /\ (tail = [] \/ exists names, tail = [dlp_notice names]).
Proof.
  intros rt v body out He H.
  destruct (inlet_outcomes rt v body out He H) as (kept & Hk & Hout).
  assert (Hframe : Forall2 (inlet_changes rt v) (get (messages body) []) kept).
  { destruct Hk as [->|Hk].
    - clear. induction (get (messages body) []) as [|m ms IH]; cbn [map];
        constructor; [|exact IH].
      split; [apply sanitize_role|]. split; reflexivity.
    - apply redact_messages_frame in Hk.
      clear - Hk. remember (get (messages body) []) as ms eqn:E. clear E.
      revert kept Hk. induction ms as [|m ms IH]; intros kept Hk;
        inversion Hk as [|? m' ? ms' (Hr & Hu & Hc) Hrest]; subst; constructor.
      + split; [now rewrite Hr, sanitize_role|]. split.
        * intros Hm. apply Hu. now rewrite sanitize_is_user.
        * exact Hc.
      + apply IH, Hrest. }
  destruct Hout as [->|(names & fs & md & Hm & ->)].
  - exists (get (messages (with_messages body kept)) []), []. rewrite app_nil_r.
    split; [reflexivity|]. split; [|now left].
    unfold with_messages. cbn [messages].
    destruct (messages body) as [ms|] eqn:Hmb; cbn [get] in *; [exact Hframe|].
    inversion Hframe. constructor.
  - exists kept, [dlp_notice names]. split; [reflexivity|]. split; [exact Hframe|].
    right. now exists names.
Qed.

Lemma inlet_keeps_the_conversation_witness :
  exists kept tail,
    get (messages (chat [says "system" (txt "Be brief."); says "user" (txt "My SSN is [REDACTED-SSN]")])) []
    = kept ++ tail
    /\ Forall2 (inlet_changes rt0 (with_mode "redact" default_valves))
               (get (messages (chat [says "system" (txt "Be brief."); says "user" ssn_message])) [])
               kept
    /\ (tail = [] \/ exists names, tail = [dlp_notice names]).
Proof.
  apply (inlet_keeps_the_conversation rt0 (with_mode "redact" default_valves)
           (chat [says "system" (txt "Be brief."); says "user" ssn_message])).
  - reflexivity.
  - vm_compute. reflexivity.
Defined.

(** ** Redact mode: stripping flagged files *)

Lemma strip_files_filter (names : list text) (fs : list FileRef) :
  forall fs', strip_files names fs = Ok fs' -> fs' = filter (survives names) fs.
Proof.
  induction fs as [|f fs IH]; cbn [strip_files filter]; intros fs'.
  - now intros [= <-].
  - destruct f as [ty id fname|tag]; [|discriminate].
    destruct (strip_files names fs) as [rest|]; cbn [bind]; [|discriminate].
    rewrite (IH rest eq_refl). cbn [survives].
    destruct fname as [n|]; [destruct (existsb (text_eqb n) names)|];
      cbn [negb]; now intros [= <-].
Qed.

Lemma strip_files_non_dict (names : list text) (fs : list FileRef) (tag : N) :
  In (FileOther tag) fs -> strip_files names fs = Raise AttributeError.
Proof.
  induction fs as [|f fs IH]; [intros []|].
  intros [->|Hin]; [reflexivity|]. cbn [strip_files].
  destruct f as [ty id fname|tag']; [|reflexivity].
  now rewrite (IH Hin).
Qed.

Lemma survives_same (l l' : list text) (f : FileRef) :
  (forall n, In n l <-> In n l') -> survives l f = survives l' f.
Proof.
  intros H. destruct f as [ty id [n|]|tag]; try reflexivity. cbn [survives].
  f_equal. apply eq_iff_eq_true. rewrite !existsb_text_eqb. apply H.
Qed.

Lemma filter_survives_py_set (rt : runtime) (l : list text) (fs : list FileRef) :
  filter (survives (py_set rt l)) fs = filter (survives l) fs.
Proof.
  apply filter_ext. intros f. apply survives_same. intros n. apply py_set_In.
Qed.

Lemma survivor_is_not_flagged (names : list text) (fs : list FileRef)
      (ty id : option text) (n : text) :
  In (FileDict ty id (Some n)) (filter (survives names) fs) -> ~ In n names.
Proof.
  intros H Hn. apply filter_In in H. destruct H as [_ H]. cbn [survives] in H.
  apply existsb_text_eqb in Hn. rewrite Hn in H. discriminate.
Qed.

Lemma inlet_redact_flagged (rt : runtime) (v : Valves) (body : Body)
      (f : text * list finding) (fds : list (text * list finding)) :
  enabled v = true ->
  mode v = txt "redact" ->
  scan_file_uploads v = true ->
  fst (_scan_files rt v body) = f :: fds ->
  inlet rt v body
  = (md <- scan_messages rt v (map (sanitize_message rt) (get (messages body) [])) ;;
     msgs' <- match md with
              | [] => Ok (map (sanitize_message rt) (get (messages body) []))
              | _ :: _ => redact_messages rt v
                            (map (sanitize_message rt) (get (messages body) []))
              end ;;
     clean_files <- strip_files (py_set rt (map fst (f :: fds))) (get (files body) []) ;;
     md' <- strip_metadata (py_set rt (map fst (f :: fds))) (metadata body) ;;
     match messages body with
     | None => Raise KeyError
     | Some _ =>
         Ok {| messages := Some (msgs' ++ [dlp_notice (py_set rt (map fst (f :: fds)))]);
               files := Some clean_files; metadata := md' |}
     end).
Proof.
  intros He Hmode Hup Hf. unfold inlet. rewrite He, Hmode, Hup, Hf. cbn [negb].
  replace (text_eqb (txt "redact") (txt "block")) with false by reflexivity.
  replace (text_eqb (txt "redact") (txt "redact")) with true by reflexivity.
  destruct (scan_messages rt v _) as [[|d md]|e]; reflexivity.
Qed.

(** X16.  In redact mode, when files were flagged, what the inbound
    hook forwards has lost exactly the file references that carry a
    flagged file's name, in the file list and in the metadata's file
    list alike: no reference with a flagged name is left, every other
    reference is kept in place, and the last message is the system
    notice, which names every flagged file. *)
Theorem redact_mode_strips_flagged_files :
  forall (rt : runtime) (v : Valves) (body out : Body)
         (flagged : list (text * list finding)),
    enabled v = true ->
    mode v = txt "redact" ->
    scan_file_uploads v = true ->
    fst (_scan_files rt v body) = flagged ->
    flagged <> [] ->
    inlet rt v body = Ok out ->
    files out = Some (filter (survives (map fst flagged)) (get (files body) []))
    /\ (forall ty id n,
           In (FileDict ty id (Some n)) (get (files out) []) ->
           ~ In n (map fst flagged))
    /\ (forall fs, metadata body = Some {| md_files := Some fs |} ->
                   metadata out
                   = Some {| md_files := Some (filter (survives (map fst flagged)) fs) |})
    /\ (exists kept,
           messages out
           = Some (kept ++ [ {| role := Some (txt "system");
                                content := CStr (notice_text
                                                   (py_set rt (map fst flagged))) |} ]))
    /\ (forall n, In n (map fst flagged) ->
                  occurs n (notice_text (py_set rt (map fst flagged)))).
Proof.
  intros rt v body out flagged He Hmode Hup Hf Hne H.
  destruct flagged as [|f fds]; [congruence|].
  rewrite (inlet_redact_flagged rt v body f fds He Hmode Hup Hf) in H.
  destruct (scan_messages rt v _) as [md|]; cbn [bind] in H; [|discriminate].
  match type of H with
  | (msgs' <- ?m ;; _) = _ => destruct m as [kept|]; cbn [bind] in H; [|discriminate]
  end.
  destruct (strip_files _ (get (files body) [])) as [fs'|] eqn:Hs; cbn [bind] in H;
    [|discriminate].
  apply strip_files_filter in Hs. rewrite filter_survives_py_set in Hs.
  destruct (strip_metadata _ (metadata body)) as [md'|] eqn:Hmd; cbn [bind] in H;
    [|discriminate].
  destruct (messages body); [|discriminate]. injection H as <-.
  cbn [files metadata messages get].
  split; [now rewrite Hs|].
  split; [intros ty id n Hin; rewrite Hs in Hin;
          apply (survivor_is_not_flagged _ _ ty id n Hin)|].
  split.
  - intros fs Hb. rewrite Hb in Hmd. cbn [strip_metadata] in Hmd.
    destruct (strip_files _ fs) as [fs1|] eqn:Hs1; cbn [bind] in Hmd; [|discriminate].
    apply strip_files_filter in Hs1. rewrite filter_survives_py_set in Hs1.
    injection Hmd as <-. now rewrite Hs1.
  - split; [exists kept; reflexivity|].
    intros n Hn. unfold notice_text.
    apply occurs_app_r, occurs_app_l, join_occurs, py_set_In, Hn.
Qed.

Lemma redact_mode_strips_flagged_files_witness :
  files (with_files [FileDict (Some (txt "file")) (Some (txt "f2")) (Some (txt "notes.zip"))]
           (chat [says "user" (txt "see attached");
                  dlp_notice [txt "payroll.csv"]]))
  = Some (filter (survives (map fst [(txt "payroll.csv",
                                      [(txt "ssn", txt "Social Security Number", txt "critical");
                                       (txt "ssn_labeled", txt "Social Security Number (labeled)",
                                        txt "critical")])]))
                 (get (files (with_files
                                [small_file;
                                 FileDict (Some (txt "file")) (Some (txt "f2"))
                                          (Some (txt "notes.zip"))]
                                (user_says (txt "see attached")))) []))
  /\ inlet rt_small_file (with_mode "redact" default_valves)
           (with_files [small_file;
                        FileDict (Some (txt "file")) (Some (txt "f2")) (Some (txt "notes.zip"))]
                       (user_says (txt "see attached")))
     = Ok (with_files [FileDict (Some (txt "file")) (Some (txt "f2")) (Some (txt "notes.zip"))]
             (chat [says "user" (txt "see attached");
                    dlp_notice [txt "payroll.csv"]])).
Proof.
  assert (Hin : inlet rt_small_file (with_mode "redact" default_valves)
                      (with_files [small_file;
                                   FileDict (Some (txt "file")) (Some (txt "f2"))
                                            (Some (txt "notes.zip"))]
                                  (user_says (txt "see attached")))
                = Ok (with_files [FileDict (Some (txt "file")) (Some (txt "f2"))
                                           (Some (txt "notes.zip"))]
                        (chat [says "user" (txt "see attached");
                               dlp_notice [txt "payroll.csv"]])))
    by (vm_compute; reflexivity).
  split; [|exact Hin].
  refine (proj1 (redact_mode_strips_flagged_files rt_small_file
                   (with_mode "redact" default_valves) _ _ _
                   eq_refl eq_refl eq_refl _ _ Hin)).
  - vm_compute. reflexivity.
  - discriminate.
Defined.

(** X17.  In redact mode, when a file was flagged and the request's
    file list holds an entry that is not a dict (which the file scan
    skips silently), the inbound hook fails: the request is neither
    forwarded nor rejected with a DLP message; short of an earlier
    failure of the message scan or of the redaction, the failure is an
    AttributeError. *)
Theorem redact_mode_fails_on_a_non_dict_file_entry :
  forall (rt : runtime) (v : Valves) (body : Body) (tag : N),
    enabled v = true ->
    mode v = txt "redact" ->
    scan_file_uploads v = true ->
    fst (_scan_files rt v body) <> [] ->
    In (FileOther tag) (get (files body) []) ->
    inlet rt v body = Raise AttributeError
    \/ (exists e,
           scan_messages rt v (map (sanitize_message rt) (get (messages body) []))
           = Raise e
           /\ inlet rt v body = Raise e)
    \/ (exists e,
           redact_messages rt v (map (sanitize_message rt) (get (messages body) []))
           = Raise e
           /\ inlet rt v body = Raise e).
Proof.
  intros rt v body tag He Hmode Hup Hne Hin.
  destruct (fst (_scan_files rt v body)) as [|f fds] eqn:Hf; [congruence|].
  rewrite (inlet_redact_flagged rt v body f fds He Hmode Hup Hf).
  rewrite (strip_files_non_dict _ _ tag Hin).
  destruct (scan_messages rt v _) as [[|d md]|e]; cbn [bind].
  - now left.
  - destruct (redact_messages rt v _) as [kept|e]; cbn [bind]; [now left|].
    right. right. exists e. auto.
  - right. left. exists e. auto.
Qed.

Lemma redact_mode_fails_on_a_non_dict_file_entry_witness :
  inlet rt_small_file (with_mode "redact" default_valves)
        (with_files [FileOther 0; small_file] (user_says (txt "see attached")))
  = Raise AttributeError
  \/ (exists e,
         scan_messages rt_small_file (with_mode "redact" default_valves)
           (map (sanitize_message rt_small_file)
                (get (messages (with_files [FileOther 0; small_file]
                                           (user_says (txt "see attached")))) []))
         = Raise e
         /\ inlet rt_small_file (with_mode "redact" default_valves)
                  (with_files [FileOther 0; small_file] (user_says (txt "see attached")))
            = Raise e)
  \/ (exists e,
         redact_messages rt_small_file (with_mode "redact" default_valves)
           (map (sanitize_message rt_small_file)
                (get (messages (with_files [FileOther 0; small_file]
                                           (user_says (txt "see attached")))) []))
         = Raise e
         /\ inlet rt_small_file (with_mode "redact" default_valves)
                  (with_files [FileOther 0; small_file] (user_says (txt "see attached")))
            = Raise e).
Proof.
  apply (redact_mode_fails_on_a_non_dict_file_entry rt_small_file
           (with_mode "redact" default_valves)
           (with_files [FileOther 0; small_file] (user_says (txt "see attached"))) 0%N).
  - reflexivity.
  - reflexivity.
  - reflexivity.
  - vm_compute. discriminate.
  - left. reflexivity.
Defined.

(** ** Custom detectors, and the toggles *)

Lemma dict_set_In_new {V : Type} (k : text) (v : V) (d : list (text * V)) :
  In (k, v) (dict_set k v d).
Proof.
  induction d as [|[k0 v0] d IH]; cbn [dict_set]; [now left|].
  destruct (text_eqb k k0); [now left|now right].
Qed.

Lemma custom_name_inj (n n' : text) :
  txt "custom_" ++ n = txt "custom_" ++ n' -> n = n'.
Proof. apply app_inv_head. Qed.

Lemma add_customs_keep (e : text * pattern) (n : text) (items : list (text * json)) :
  fst e = txt "custom_" ++ n ->
  ~ In n (map fst items) ->
  forall acc, In e acc -> In e (fold_left add_custom items acc).
Proof.
  intros He. induction items as [|[k j] items IH]; intros Hn acc Hin; [exact Hin|].
  cbn [fold_left]. apply IH; [intros H; apply Hn; now right|].
  unfold add_custom. cbn [custom_entry fst snd].
  destruct e as [ke pe]. cbn [fst] in He. subst ke.
  apply dict_set_other; [|exact Hin].
  intros E. apply custom_name_inj in E. apply Hn. left. exact E.
Qed.

Lemma add_customs_In (n : text) (rx : json) (items : list (text * json)) :
  NoDup (map fst items) ->
  In (n, rx) items ->
  forall acc, In (custom_entry n rx) (fold_left add_custom items acc).
Proof.
  induction items as [|[k j] items IH]; intros Hnd Hin acc; [destruct Hin|].
  cbn [map fst] in Hnd. inversion Hnd as [|? ? Hk Hrest]; subst.
  cbn [fold_left]. destruct Hin as [[= -> ->]|Hin].
  - apply (add_customs_keep _ n); [reflexivity|exact Hk|].
    unfold add_custom. cbn [fst snd]. apply dict_set_In_new.
  - apply IH; assumption.
Qed.

Lemma active_decomp (rt : runtime) (v : Valves) (active : list (text * pattern)) :
  _get_active_patterns rt v = Ok active ->
  active = filter (toggled_on v) patterns ++ active_customs rt (custom_patterns v).
Proof.
  unfold _get_active_patterns, active_customs.
  assert (Hplain : Forall (fun np => starts_with (txt "custom_") (fst np) = false)
                          (filter (toggled_on v) patterns))
    by apply Forall_filter_keep, registry_names_plain.
  remember (filter (toggled_on v) patterns) as base eqn:Hbase. clear Hbase.
  destruct (json_loads rt (custom_patterns v)) as [[| | | | |members]|e];
    try discriminate.
  - intros [= <-].
    rewrite <- (add_customs_split (dict_items members) base [] Hplain).
    now rewrite app_nil_r.
  - destruct e; try discriminate; intros [= <-]; now rewrite app_nil_r.
Qed.

(** X18.  A custom pattern is reported under its own name: when the
    custom mapping is a JSON object in which [n] is bound to a pattern
    that compiles and matches somewhere in the text, the scan, whenever
    it returns, holds the finding named [custom_n], described as
    "Custom: n", with severity "high", whatever the toggles. *)
Theorem custom_pattern_is_reported :
  forall (rt : runtime) (v : Valves) (t : text) (members : list (text * json))
         (n src : text) (r : re_pattern) (ds : list finding),
    json_loads rt (custom_patterns v) = Ok (JObj members) ->
    In (n, JStr src) (dict_items members) ->
    re_compile rt src = Ok r ->
    re_search (rt_unicode rt) r t = true ->
    _scan_text rt v (Some t) = Ok ds ->
    In (txt "custom_" ++ n, txt "Custom: " ++ n, txt "high") ds.
Proof.
  intros rt v t members n src r ds Hj Hin Hc Hs Hscan.
  unfold _scan_text in Hscan.
  destruct (_get_active_patterns rt v) as [active|] eqn:Ha; cbn [bind] in Hscan;
    [|discriminate].
  apply scan_loop_fires in Hscan. subst ds.
  apply active_decomp in Ha. unfold active_customs in Ha. rewrite Hj in Ha.
  change (txt "custom_" ++ n, txt "Custom: " ++ n, txt "high")
    with (finding_of (custom_entry n (JStr src))).
  apply in_map, filter_In. split.
  - rewrite Ha. apply in_or_app. right.
    apply add_customs_In; [apply dict_items_NoDup|exact Hin].
  - unfold fires. cbn [custom_entry snd regex compile_value]. now rewrite Hc, Hs.
Qed.

Lemma custom_pattern_is_reported_witness :
  In (txt "custom_" ++ txt "project_code", txt "Custom: " ++ txt "project_code",
      txt "high")
     [(txt "custom_project_code", txt "Custom: project_code", txt "high")].
Proof.
  apply (custom_pattern_is_reported rt0 project_valves
           (txt "Budget for PRJ-20417 is due")
           [(txt "project_code", JStr (txt "PRJ-\d{5}"))]
           (txt "project_code") (txt "PRJ-\d{5}") re_project).
  - vm_compute. reflexivity.
  - left. reflexivity.
  - vm_compute. reflexivity.
  - vm_compute. reflexivity.
  - vm_compute. reflexivity.
Defined.

Lemma filter_toggles_le (v v' : Valves) (np : text * pattern) :
  toggles_le v v' ->
  In np (filter (toggled_on v) patterns) -> In np (filter (toggled_on v') patterns).
Proof.
  intros Hle H. apply filter_In in H. destruct H as [Hin Hon].
  apply filter_In. split; [exact Hin|]. apply Hle, Hon.
Qed.

(** X19.  Switching detectors on never loses a finding: with the same
    custom mapping, if every toggle that is on in one configuration is
    on in another, each finding of a scan under the first is a finding
    of the scan of the same text under the second. *)
Theorem more_toggles_more_findings :
  forall (rt : runtime) (v v' : Valves) (t : text) (ds ds' : list finding),
    custom_patterns v = custom_patterns v' ->
    toggles_le v v' ->
    _scan_text rt v (Some t) = Ok ds ->
    _scan_text rt v' (Some t) = Ok ds' ->
    Forall (fun f => In f ds') ds.
Proof.
  intros rt v v' t ds ds' Hc Hle H H'. unfold _scan_text in H, H'.
  destruct (_get_active_patterns rt v) as [a|] eqn:Ha; cbn [bind] in H; [|discriminate].
  destruct (_get_active_patterns rt v') as [a'|] eqn:Ha'; cbn [bind] in H';
    [|discriminate].
  apply scan_loop_fires in H, H'. subst ds ds'.
  apply active_decomp in Ha, Ha'. rewrite <- Hc in Ha'.
  apply Forall_forall.
  intros f Hf. apply in_map_iff in Hf. destruct Hf as (np & <- & Hnp).
  apply in_map. apply filter_In in Hnp. destruct Hnp as [Hnp Hfire].
  apply filter_In. split; [|exact Hfire].
  rewrite Ha in Hnp. rewrite Ha'. apply in_app_iff in Hnp. apply in_app_iff.
  destruct Hnp as [Hnp|Hnp]; [left|right; exact Hnp].
  apply (filter_toggles_le v v' np Hle Hnp).
Qed.

Lemma more_toggles_more_findings_witness :
  Forall (fun f =>
            In f [(txt "ssn", txt "Social Security Number", txt "critical");
                  (txt "ssn_labeled", txt "Social Security Number (labeled)",
                   txt "critical");
                  (txt "password_inline", txt "Inline Password", txt "critical")])
         [(txt "password_inline", txt "Inline Password", txt "critical")].
Proof.
  apply (more_toggles_more_findings rt0 ssn_off default_valves
           (txt "SSN 123-45-6789, password: hunter22")).
  - reflexivity.
  - intros name. unfold ssn_off, getattr_valve.
    cbn [block_ssn block_credit_cards block_phi block_credentials
         block_bank_accounts block_standalone_dates default_valves].
    repeat match goal with |- context [if ?b then _ else _] => destruct b end;
      auto.
  - vm_compute. reflexivity.
  - vm_compute. reflexivity.
Defined.
